(** * ycceRAG: the crawl engine and the change-detection / synchronisation
      engine, embedded from the Python sources.

    Python [str] values are modelled as Rocq strings (sequences of bytes of
    the UTF-8 encoding); [set] as [gset], [dict] used as a map as [gmap].
    Console output ([print]) has no model: nothing in the program reads it. *)

From Stdlib Require Import ZArith Lia List Ascii String Floats.
From stdpp Require Import base option list sets gmap fin_maps strings pretty sorting.

Local Open Scope string_scope.
Local Open Scope list_scope.
Local Open Scope nat_scope.

(* ===================================================================== *)
(** ** Python runtime: exceptions and results                             *)
(* ===================================================================== *)

Module Py.

(** The exceptions the modelled code can raise. *)
Inductive exn : Type :=
  | KeyError (key : string)
  | AttributeError (what : string)
  | RuntimeError (msg : string)
  | EnvironmentError (msg : string)
  | TypeError (what : string)
  | RequestException (detail : string)
  | ParseError.

(** Outcome of a call: a value, or a raised exception. *)
Inductive result (A : Type) : Type :=
  | Ok (a : A)
  | Raise (e : exn).
Arguments Ok {A} a.
Arguments Raise {A} e.

End Py.
Export Py.

(* ===================================================================== *)
(** ** Python runtime: the [str] methods the crawler uses                 *)
(* ===================================================================== *)

Module PyStr.

(** [str.lower] on ASCII letters; other bytes are left as they are, so the
    model is that of [str.lower] on ASCII strings only (beyond ASCII Python
    lowers more letters, the capital sigma by its context). *)
Definition lower_char (c : ascii) : ascii :=
  let n := nat_of_ascii c in
  if (65 <=? n) && (n <=? 90) then ascii_of_nat (n + 32) else c.

Fixpoint lower (s : string) : string :=
  match s with
  | EmptyString => EmptyString
  | String c s' => String (lower_char c) (lower s')
  end.

Definition startswith (s p : string) : bool := String.prefix p s.

Definition endswith (s suffix : string) : bool :=
  String.prefix (String.rev suffix) (String.rev s).

(** [s.replace("www.", "")]: every occurrence, left to right. *)
Fixpoint remove_www (s : string) : string :=
  match s with
  | String "w" (String "w" (String "w" (String "." rest))) => remove_www rest
  | String c rest => String c (remove_www rest)
  | EmptyString => EmptyString
  end.

(** The white space of one byte: U+0009 to U+000D, U+001C to U+0020. *)
Definition is_space (c : ascii) : bool :=
  let n := nat_of_ascii c in
  ((9 <=? n) && (n <=? 13)) || ((28 <=? n) && (n <=? 32)).

Fixpoint lstrip_by (drop_it : ascii -> bool) (s : string) : string :=
  match s with
  | String c s' => if drop_it c then lstrip_by drop_it s' else s
  | EmptyString => EmptyString
  end.

Definition rstrip_by (drop_it : ascii -> bool) (s : string) : string :=
  String.rev (lstrip_by drop_it (String.rev s)).

(** The white space that takes two or three bytes in UTF-8: U+0085 and
    U+00A0; U+1680, U+2000 to U+200A, U+2028, U+2029, U+202F, U+205F and
    U+3000. With [is_space] these are all the characters [str.isspace]
    accepts. *)
Definition is_space2 (b1 b2 : ascii) : bool :=
  (nat_of_ascii b1 =? 194) &&
  ((nat_of_ascii b2 =? 133) || (nat_of_ascii b2 =? 160)).

Definition is_space3 (b1 b2 b3 : ascii) : bool :=
  let n1 := nat_of_ascii b1 in
  let n2 := nat_of_ascii b2 in
  let n3 := nat_of_ascii b3 in
  ((n1 =? 225) && (n2 =? 154) && (n3 =? 128)) ||
  ((n1 =? 226) && (n2 =? 128) &&
   (((128 <=? n3) && (n3 <=? 138)) || (n3 =? 168) || (n3 =? 169) || (n3 =? 175))) ||
  ((n1 =? 226) && (n2 =? 129) && (n3 =? 159)) ||
  ((n1 =? 227) && (n2 =? 128) && (n3 =? 128)).

(** [s.lstrip()]: drop white-space characters from the front. *)
Fixpoint lstrip_space (s : string) : string :=
  match s with
  | String b1 s1 =>
      if is_space b1 then lstrip_space s1
      else
        match s1 with
        | String b2 s2 =>
            if is_space2 b1 b2 then lstrip_space s2
            else
              match s2 with
              | String b3 s3 =>
                  if is_space3 b1 b2 b3 then lstrip_space s3 else s
              | EmptyString => s
              end
        | EmptyString => s
        end
  | EmptyString => EmptyString
  end.

(** The same from the end, on the reversed string (the bytes of a
    character come last byte first). *)
Fixpoint lstrip_space_rev (s : string) : string :=
  match s with
  | String b1 s1 =>
      if is_space b1 then lstrip_space_rev s1
      else
        match s1 with
        | String b2 s2 =>
            if is_space2 b2 b1 then lstrip_space_rev s2
            else
              match s2 with
              | String b3 s3 =>
                  if is_space3 b3 b2 b1 then lstrip_space_rev s3 else s
              | EmptyString => s
              end
        | EmptyString => s
        end
  | EmptyString => EmptyString
  end.

(** [s.strip()] *)
Definition strip (s : string) : string :=
  String.rev (lstrip_space_rev (String.rev (lstrip_space s))).

(** [s.rstrip("/")] *)
Definition rstrip_slash (s : string) : string :=
  rstrip_by (fun c => bool_decide (c = "/"%char)) s.

(** [s.split("#")[0]] *)
Fixpoint before_hash (s : string) : string :=
  match s with
  | String c s' => if bool_decide (c = "#"%char) then EmptyString
                   else String c (before_hash s')
  | EmptyString => EmptyString
  end.

(** [needle in s] *)
Fixpoint contains (needle s : string) : bool :=
  String.prefix needle s ||
  match s with
  | String _ s' => contains needle s'
  | EmptyString => false
  end.

End PyStr.

(* ===================================================================== *)
(** ** hashlib.sha256: SHA-256 as FIPS 180-4 defines it                   *)
(* ===================================================================== *)

Module SHA256.
Local Open Scope Z_scope.

(** 32-bit words are integers in [0, 2^32); sums wrap around. *)
Definition wrap (x : Z) : Z := x mod 2 ^ 32.

Definition add (x y : Z) : Z := wrap (x + y).

Definition rotr (n x : Z) : Z :=
  wrap (Z.lor (Z.shiftr x n) (Z.shiftl x (32 - n))).

Definition shr (n x : Z) : Z := Z.shiftr x n.

Definition Ch (x y z : Z) : Z :=
  Z.lxor (Z.land x y) (Z.land (Z.lxor x 4294967295) z).

Definition Maj (x y z : Z) : Z :=
  Z.lxor (Z.lxor (Z.land x y) (Z.land x z)) (Z.land y z).

Definition Sigma0 (x : Z) : Z := Z.lxor (Z.lxor (rotr 2 x) (rotr 13 x)) (rotr 22 x).
Definition Sigma1 (x : Z) : Z := Z.lxor (Z.lxor (rotr 6 x) (rotr 11 x)) (rotr 25 x).
Definition sigma0 (x : Z) : Z := Z.lxor (Z.lxor (rotr 7 x) (rotr 18 x)) (shr 3 x).
Definition sigma1 (x : Z) : Z := Z.lxor (Z.lxor (rotr 17 x) (rotr 19 x)) (shr 10 x).

(** The primes below [n], by trial division. *)
Definition is_prime (n : nat) : bool :=
  (2 <=? n)%nat && forallb (fun d => negb (n mod d =? 0)%nat) (seq 2 (n - 2)).

Definition primes_below (n : nat) : list Z :=
  Z.of_nat <$> List.filter is_prime (seq 0 n).

(** The largest [r] below [2 ^ bits] with [pow r <= n], found bit by bit. *)
Fixpoint floor_root (pow : Z -> Z) (bits : nat) (r n : Z) : Z :=
  match bits with
  | O => r
  | S b =>
      let r' := r + 2 ^ Z.of_nat b in
      floor_root pow b (if pow r' <=? n then r' else r) n
  end.

(** The round constants: the first 32 bits of the fractional parts of the
    cube roots of the first 64 primes. *)
Definition K : list Z :=
  Eval vm_compute in
    (fun p => wrap (floor_root (fun r => r * r * r) 36 0 (p * 2 ^ 96)))
      <$> primes_below 312.

(** The initial hash value: the same of the square roots of the first 8
    primes. *)
Definition H0 : list Z :=
  Eval vm_compute in
    (fun p => wrap (floor_root (fun r => r * r) 36 0 (p * 2 ^ 64)))
      <$> primes_below 20.

(** The bytes of a string. *)
Definition bytes_of (s : string) : list Z :=
  (fun c => Z.of_N (N_of_ascii c)) <$> list_ascii_of_string s.

(** [n] as [k] bytes, most significant first. *)
Fixpoint big_endian (k : nat) (n : Z) : list Z :=
  match k with
  | O => []
  | S k' => big_endian k' (n / 256) ++ [n mod 256]
  end.

(** Padding: the bit 1, zeros up to 56 modulo 64, the bit length on 8 bytes. *)
Definition pad (msg : list Z) : list Z :=
  let len := Z.of_nat (length msg) in
  let zeros := Z.to_nat ((55 - len) mod 64) in
  msg ++ [128] ++ replicate zeros 0 ++ big_endian 8 (8 * len).

(** Four bytes, most significant first, as a word. *)
Definition word_of (bs : list Z) : Z := foldl (fun acc b => acc * 256 + b) 0 bs.

(** Cut a list into pieces of [size] items ([fuel] bounds their number). *)
Fixpoint pieces {A} (fuel size : nat) (l : list A) : list (list A) :=
  match fuel with
  | O => []
  | S fuel' =>
      match l with
      | [] => []
      | _ => take size l :: pieces fuel' size (drop size l)
      end
  end.

Definition words_of_block (block : list Z) : list Z :=
  word_of <$> pieces 16 4 block.

(** The message schedule: 16 words extended to 64. *)
Fixpoint extend (n : nat) (w : list Z) : list Z :=
  match n with
  | O => w
  | S n' =>
      let t := length w in
      let at_ i := nth (t - i) w 0 in
      extend n' (w ++ [add (add (sigma1 (at_ 2%nat)) (at_ 7%nat))
                           (add (sigma0 (at_ 15%nat)) (at_ 16%nat))])
  end.

Definition schedule (block : list Z) : list Z := extend 48 (words_of_block block).

(** One round on the working variables a..h. *)
Definition round (v : list Z) (kw : Z * Z) : list Z :=
  match v with
  | [a; b; c; d; e; f; g; h] =>
      let T1 := add (add (add (add h (Sigma1 e)) (Ch e f g)) (fst kw)) (snd kw) in
      let T2 := add (Sigma0 a) (Maj a b c) in
      [add T1 T2; a; b; c; add d T1; e; f; g]
  | _ => v
  end.

Definition compress (hash : list Z) (block : list Z) : list Z :=
  zip_with add hash (foldl round hash (zip K (schedule block))).

Definition digest_words (msg : list Z) : list Z :=
  let padded := pad msg in
  foldl compress H0 (pieces (length padded) 64 padded).

Definition hex_digit (n : Z) : ascii :=
  if n <? 10 then ascii_of_N (Z.to_N (48 + n)) else ascii_of_N (Z.to_N (87 + n)).

Definition hex_byte (b : Z) : list ascii := [hex_digit (b / 16); hex_digit (b mod 16)].

(** hashlib.sha256(data).hexdigest() *)
Definition hexdigest (data : string) : string :=
  string_of_list_ascii
    (concat (hex_byte <$> concat (big_endian 4 <$> digest_words (bytes_of data)))).

End SHA256.

(* ===================================================================== *)
(** ** processor/deduplicator.py                                          *)
(* ===================================================================== *)

Module Deduplicator.

(** hashlib is a library: its digest is an interface of the model, of which
    [hashlib] below, with the function of [SHA256], is the instance the
    program runs with. *)
Class Hashlib := { sha256_hexdigest : string -> string }.

(** A chunk dict as [chunk_document] builds it. *)
Record Chunk : Type := mkChunk {
  url : string;
  title : string;
  type : string;
  chunk_index : nat;
  content : string
}.

(** A chunk dict after fingerprinting: the same fields plus 'content_hash'. *)
Record HChunk : Type := mkHChunk {
  chunk :> Chunk;
  content_hash : string
}.

(** [compute_hash]: hashlib.sha256(text.encode("utf-8")).hexdigest(); the
    string already is its UTF-8 encoding. *)
Definition compute_hash `{Hashlib} (text : string) : string :=
  sha256_hexdigest text.

(** The hashlib of the Python runtime. *)
Definition hashlib : Hashlib := {| sha256_hexdigest := SHA256.hexdigest |}.

(** [compute_hashes_for_chunks], on chunk values (the heap-level version,
    with the in-place update, is [PyHeap.compute_hashes_for_chunks]). *)
Definition compute_hashes_for_chunks `{Hashlib} (chunks : list Chunk) : list HChunk :=
  (fun c => mkHChunk c (compute_hash (content c))) <$> chunks.

(** new_by_url.setdefault(url, set()).add(chunk["content_hash"]) *)
Definition setdefault_add (new_by_url : gmap string (gset string)) (c : HChunk)
  : gmap string (gset string) :=
  <[url c := default ∅ (new_by_url !! url c) ∪ {[content_hash c]}]> new_by_url.

(** The first loop of [find_changed_urls]: group the new chunks by URL. *)
Definition group_by_url (new_chunks : list HChunk) : gmap string (gset string) :=
  foldl setdefault_add ∅ new_chunks.

(** existing_hashes.get(url, set()) *)
Definition get_or_empty (existing_hashes : gmap string (gset string)) (u : string)
  : gset string :=
  default ∅ (existing_hashes !! u).

(** Body of the second loop of [find_changed_urls]. *)
Definition compare_url (existing_hashes : gmap string (gset string))
    (u : string) (new_hash_set : gset string) (changed_urls : gset string)
  : gset string :=
  if decide (new_hash_set ≠ get_or_empty existing_hashes u)
  then changed_urls ∪ {[u]}
  else changed_urls.

Definition find_changed_urls (new_chunks : list HChunk)
    (existing_hashes : gmap string (gset string)) : gset string :=
  map_fold (compare_url existing_hashes) ∅ (group_by_url new_chunks).

(** The specification's words: the fingerprints of the fresh chunks of one URL. *)
Definition fresh_fingerprints (new_chunks : list HChunk) (u : string) : gset string :=
  list_to_set (content_hash <$> filter (fun c : HChunk => url c = u) new_chunks).

(** The (url, fingerprint) pair of a chunk. *)
Definition chunk_key (c : HChunk) : string * string := (url c, content_hash c).

End Deduplicator.

(* ===================================================================== *)
(** ** processor/deduplicator.py on the heap: dicts updated in place      *)
(* ===================================================================== *)

Module PyHeap.
Import Deduplicator.

(** Values of the fields of a chunk dict. *)
Inductive value : Type :=
  | VStr (s : string)
  | VInt (n : Z)
  | VNone.

(** Heap objects: dicts with string keys, and lists of references. *)
Inductive object : Type :=
  | ODict (fields : gmap string value)
  | OList (items : list nat).

(** The heap: object identities (references) to objects. *)
Abbreviation heap := (gmap nat object).

(** chunk["content_hash"] = compute_hash(chunk["content"]) on the dict
    behind the reference [l]. *)
Definition hash_chunk `{Hashlib} (l : nat) (h : heap) : result unit * heap :=
  match h !! l with
  | Some (ODict d) =>
      match d !! "content" with
      | Some (VStr text) =>
          (Ok tt, <[l := ODict (<["content_hash" := VStr (compute_hash text)]> d)]> h)
      | Some _ => (Raise (AttributeError "encode"), h)
      | None => (Raise (KeyError "content"), h)
      end
  | _ => (Raise (TypeError "indices must be integers"), h)
  end.

(** for chunk in chunks: ... *)
Fixpoint hash_chunks `{Hashlib} (items : list nat) (h : heap) : result unit * heap :=
  match items with
  | [] => (Ok tt, h)
  | l :: rest =>
      match hash_chunk l h with
      | (Ok _, h') => hash_chunks rest h'
      | (Raise e, h') => (Raise e, h')
      end
  end.

(** [compute_hashes_for_chunks]: [chunks] refers to the list (or dict)
    given; the value returned is that same reference. *)
Definition compute_hashes_for_chunks `{Hashlib} (chunks : nat) (h : heap)
  : result nat * heap :=
  match h !! chunks with
  | Some (OList items) =>
      match hash_chunks items h with
      | (Ok _, h') => (Ok chunks, h')
      | (Raise e, h') => (Raise e, h')
      end
  | Some (ODict d) =>
      (* a dict is iterated over its keys, which are strings: with no key
         the loop does nothing, else chunk["content"] indexes a string *)
      if decide (d = ∅) then (Ok chunks, h)
      else (Raise (TypeError "string indices must be integers"), h)
  | None => (Raise (TypeError "object is not iterable"), h)
  end.

(** A dict with its fingerprint field set from its content. *)
Definition hashed `{Hashlib} (d : gmap string value) : gmap string value :=
  match d !! "content" with
  | Some (VStr text) => <["content_hash" := VStr (compute_hash text)]> d
  | _ => d
  end.

Definition hash_object `{Hashlib} (o : object) : object :=
  match o with
  | ODict d => ODict (hashed d)
  | OList items => OList items
  end.

(** A reference to a chunk dict: a dict whose 'content' is a string. *)
Definition chunk_dict_at (h : heap) (l : nat) : Prop :=
  ∃ d text, h !! l = Some (ODict d) ∧ d !! "content" = Some (VStr text).

(** The dicts that stand for the chunk records of the rest of the model. *)
Definition dict_of_chunk (c : Chunk) : gmap string value :=
  <["url" := VStr (url c)]> (<["title" := VStr (title c)]> (<["type" := VStr (type c)]>
    (<["chunk_index" := VInt (Z.of_nat (chunk_index c))]>
       (<["content" := VStr (content c)]> ∅)))).

Definition dict_of_hchunk (c : HChunk) : gmap string value :=
  <["content_hash" := VStr (content_hash c)]> (dict_of_chunk c).

End PyHeap.

(* ===================================================================== *)
(** ** The world outside the process                                      *)
(* ===================================================================== *)

Module World.

(** An embedding: a JSON array of numbers, read as Python floats. *)
Definition Vec : Type := list float.

(** A row of the knowledge table, as [upsert_chunks] builds it. *)
Record Row : Type := mkRow {
  row_url : string;
  row_chunk_index : nat;
  row_content : string;
  row_content_hash : string;
  row_embedding : Vec;
  meta_title : string;
  meta_type : string;
  meta_updated_at : nat
}.

(** Requests the process sent to the table, oldest first. *)
Inductive StoreOp : Type :=
  | OpSelect
  | OpDelete (u : string)
  | OpInsert (batch : list Row).

(** What [resp.json()] gives: an object with or without the key
    'embedding', or a body that is no JSON (requests raises its
    JSONDecodeError, a RequestException). *)
Inductive JsonBody : Type :=
  | JsonObject (embedding : option Vec)
  | JsonDecodeError.

(** What [requests.post] gives: a response, or a raised RequestException
    (connection error, timeout). *)
Inductive PostOutcome : Type :=
  | PostResponse (status_code : Z) (body : JsonBody)
  | PostRaises (detail : string).

(** The Edge Function: its answer to the n-th POST of the run, for the
    text sent. *)
Class EdgeFunction := { edge_answer : nat -> string -> PostOutcome }.

(** The mutable world: the remote table, the requests sent to it, the
    number of embedding POSTs made, the sleeps taken and a logical clock. *)
Record world : Type := mkWorld {
  table : list Row;
  store_log : list StoreOp;
  posts : nat;
  slept : list Z;
  clock : nat
}.

(** Computations that read and write the world and may raise; the world
    reached when an exception is raised is kept (nothing is rolled back). *)
Definition M (A : Type) : Type := world -> result A * world.

Definition ret {A} (a : A) : M A := fun w => (Ok a, w).
Definition raise {A} (e : exn) : M A := fun w => (Raise e, w).
Definition bind {A B} (m : M A) (k : A -> M B) : M B :=
  fun w => match m w with
           | (Ok a, w') => k a w'
           | (Raise e, w') => (Raise e, w')
           end.

(** try: ... except RequestException: handler *)
Definition try_except_request {A} (m : M A) (handler : string -> M A) : M A :=
  fun w => match m w with
           | (Raise (RequestException d), w') => handler d w'
           | r => r
           end.

(** for x in xs: body(x) *)
Fixpoint for_each {A} (xs : list A) (body : A -> M unit) : M unit :=
  match xs with
  | [] => ret tt
  | x :: xs' => bind (body x) (fun _ => for_each xs' body)
  end.

(** The table, the request log and the clock are the same in both worlds. *)
Definition same_store (w w' : world) : Prop :=
  table w' = table w ∧ store_log w' = store_log w ∧ clock w' = clock w.

End World.
Export World.

(** stdpp's monad notations ([x ← m; k] and [m ;; k]) for [M]. *)
#[global] Instance M_ret : MRet M := @ret.
#[global] Instance M_bind : MBind M := fun A B k m => bind m k.

(* ===================================================================== *)
(** ** processor/embedder.py                                              *)
(* ===================================================================== *)

Module Embedder.
Local Open Scope Z_scope.

(** requests.post(url, json={"input": text}, ...) *)
Definition requests_post `{EdgeFunction} (text : string) : M (Z * JsonBody) :=
  fun w =>
    let w' := mkWorld (table w) (store_log w) (S (posts w)) (slept w) (clock w) in
    match edge_answer (posts w) text with
    | PostResponse status_code body => (Ok (status_code, body), w')
    | PostRaises d => (Raise (RequestException d), w')
    end.

(** time.sleep(wait) *)
Definition time_sleep (wait : Z) : M unit :=
  fun w => (Ok tt, mkWorld (table w) (store_log w) (posts w) (slept w ++ [wait]) (clock w)).

(** resp.raise_for_status(): HTTPError (a RequestException) on 4xx and 5xx. *)
Definition raise_for_status (status_code : Z) : M unit :=
  if (400 <=? status_code) && (status_code <? 600)
  then raise (RequestException "HTTPError")
  else ret tt.

(** resp.json()["embedding"] *)
Definition json_embedding (body : JsonBody) : M Vec :=
  match body with
  | JsonObject (Some v) => ret v
  | JsonObject None => raise (KeyError "embedding")
  | JsonDecodeError => raise (RequestException "JSONDecodeError")
  end.

(** wait = 2 ** attempt * 2 *)
Definition backoff (attempt : nat) : Z := 2 ^ Z.of_nat attempt * 2.

(** The loop of [_call_embed] over the remaining values of [attempt]:
    [None] from the body stands for falling through to the next
    iteration, [Some v] for [return v]. *)
Fixpoint call_embed_loop `{EdgeFunction} (text : string) (retries : nat)
    (attempts : list nat) : M Vec :=
  match attempts with
  | [] => raise (RuntimeError ("Failed to embed after " +:+ pretty retries +:+ " retries"))
  | attempt :: rest =>
      r ← try_except_request
            ('(status_code, body) ← requests_post text;
             if (status_code =? 546) || (500 <=? status_code)
             then time_sleep (backoff attempt);; mret None
             else raise_for_status status_code;;
                  v ← json_embedding body; mret (Some v))
            (fun e =>
               if Z.of_nat attempt <? Z.of_nat retries - 1
               then time_sleep (backoff attempt);; mret None
               else raise (RequestException e));
      match r with
      | Some v => mret v
      | None => call_embed_loop text retries rest
      end
  end.

Definition _call_embed `{EdgeFunction} (text : string) (retries : nat) : M Vec :=
  call_embed_loop text retries (seq 0 retries).

(** The default of the keyword argument: retries = 3. *)
Definition default_retries : nat := 3.

(** [embed_texts]: one call per text, results appended in order. *)
Fixpoint embed_texts `{EdgeFunction} (texts : list string) : M (list Vec) :=
  match texts with
  | [] => ret []
  | text :: rest =>
      emb ← _call_embed text default_retries;
      embs ← embed_texts rest;
      mret (emb :: embs)
  end.

Definition embed_single `{EdgeFunction} (text : string) : M Vec :=
  _call_embed text default_retries.

(** The specification's words: a server-side transient status. *)
Definition transient_status (status_code : Z) : Prop :=
  status_code = 546 \/ 500 <= status_code <= 599.

End Embedder.

(* ===================================================================== *)
(** ** database/supabase_client.py                                        *)
(* ===================================================================== *)

Module SupabaseClient.
Import Deduplicator.

(** The table answers every request (a transport failure of the client
    library has no model: a run in which one occurs is not a successful
    run). [get_client] only builds the client object and sends nothing. *)

Definition log_op (op : StoreOp) (w : world) : world :=
  mkWorld (table w) (store_log w ++ [op]) (posts w) (slept w) (clock w).

Definition set_table (t : list Row) (w : world) : world :=
  mkWorld t (store_log w) (posts w) (slept w) (clock w).

(** hashes.setdefault(url, set()).add(row["content_hash"]) *)
Definition setdefault_add_row (hashes : gmap string (gset string)) (row : Row)
  : gmap string (gset string) :=
  <[row_url row := default ∅ (hashes !! row_url row) ∪ {[row_content_hash row]}]> hashes.

(** The grouping loop of [get_existing_hashes] over the rows selected. *)
Definition hashes_of_rows (data : list Row) : gmap string (gset string) :=
  foldl setdefault_add_row ∅ data.

(** select("url, content_hash") over the whole table, then the grouping loop. *)
Definition get_existing_hashes : M (gmap string (gset string)) :=
  fun w => (Ok (hashes_of_rows (table w)), log_op OpSelect w).

(** delete().eq("url", url) *)
Definition delete_chunks_for_url (u : string) : M unit :=
  fun w =>
    (Ok tt, log_op (OpDelete u)
              (set_table (filter (fun r : Row => row_url r ≠ u) (table w)) w)).

(** insert(batch) *)
Definition insert_batch (batch : list Row) : M unit :=
  fun w => (Ok tt, log_op (OpInsert batch) (set_table (table w ++ batch) w)).

(** datetime.now(timezone.utc): read the clock, which then moves on. *)
Definition utcnow : M nat :=
  fun w => (Ok (clock w),
            mkWorld (table w) (store_log w) (posts w) (slept w) (S (clock w))).

Definition BATCH_SIZE : nat := 100.

(** range(start, stop, step) for a positive step; [fuel] bounds the number
    of values and [stop - start] always suffices. *)
Fixpoint range_from (fuel start stop step : nat) : list nat :=
  match fuel with
  | O => []
  | S fuel' =>
      if (start <? stop)%nat then start :: range_from fuel' (start + step) stop step
      else []
  end.

Definition py_range (start stop step : nat) : list nat :=
  range_from (stop - start) start stop step.

(** rows[i : j] *)
Definition slice {A} (l : list A) (i j : nat) : list A := take (j - i) (drop i l).

Definition make_row (now : nat) (ce : HChunk * Vec) : Row :=
  let '(c, embedding) := ce in
  mkRow (url c) (chunk_index c) (content c) (content_hash c) embedding
        (title c) (type c) now.

Definition upsert_chunks (chunks : list HChunk) (embeddings : list Vec) : M unit :=
  now ← utcnow;
  let rows := make_row now <$> zip chunks embeddings in
  for_each (py_range 0 (length rows) BATCH_SIZE)
           (fun i => insert_batch (slice rows i (i + BATCH_SIZE))).

(** The fingerprints the table holds for one URL. *)
Definition stored_fingerprints (t : list Row) (u : string) : gset string :=
  list_to_set (row_content_hash <$> filter (fun r : Row => row_url r = u) t).

(** The (url, fingerprint) pair of a row. *)
Definition row_key (r : Row) : string * string := (row_url r, row_content_hash r).

Definition is_insert (op : StoreOp) : Prop :=
  match op with OpInsert _ => True | _ => False end.

Definition is_delete (op : StoreOp) : Prop :=
  match op with OpDelete _ => True | _ => False end.

End SupabaseClient.

(* ===================================================================== *)
(** ** config.py                                                          *)
(* ===================================================================== *)

Module Config.

(** The environment the settings are read from ([None]: variable unset).
    The two caps are compared with set sizes only, so a negative value
    behaves as 0 and they are kept as naturals. *)
Record config : Type := mkConfig {
  SUPABASE_URL : option string;
  SUPABASE_SERVICE_KEY : option string;
  SUPABASE_ANON_KEY : option string;
  TARGET_DOMAIN : string;
  MAX_PAGES : nat;
  MAX_PDFS : nat
}.

(** [not x] for an environment value: unset or empty. *)
Definition falsy (x : option string) : bool :=
  match x with None => true | Some v => bool_decide (v = "") end.

Fixpoint join (sep : string) (parts : list string) : string :=
  match parts with
  | [] => ""
  | [x] => x
  | x :: rest => x +:+ sep +:+ join sep rest
  end.

Definition validate (cfg : config) : result unit :=
  let missing :=
    ((if falsy (SUPABASE_URL cfg) then ["SUPABASE_URL"] else []) ++
     (if falsy (SUPABASE_SERVICE_KEY cfg) then ["SUPABASE_SERVICE_KEY"] else []) ++
     (if falsy (SUPABASE_ANON_KEY cfg) then ["SUPABASE_ANON_KEY"] else []))%list in
  match missing with
  | [] => Ok tt
  | _ => Raise (EnvironmentError
                  ("Missing required environment variables: " +:+ join ", " missing))
  end.

End Config.

(* ===================================================================== *)
(** ** crawler/spider.py                                                  *)
(* ===================================================================== *)

Module Spider.
Import PyStr Config.

(** The libraries the crawler calls: urllib.parse, os.path and the XML
    parser (they are taken to return; a ValueError of urllib on a
    malformed address has no model). *)
Class Urllib := {
  urlparse_netloc : string -> string;
  urlparse_path : string -> string;
  urljoin : string -> string -> string;
  splitext_ext : string -> string
}.

(** A <url> element of the sitemap: its <loc> child, if any, and the text
    of that child, if any. *)
Inductive UrlElem : Type :=
  | NoLoc
  | Loc (text : option string).

(** ET.parse(path).getroot().findall("sm:url", ns): the <url> elements in
    document order, or the parser's exception. *)
Class XmlParser := { et_parse : string -> result (list UrlElem) }.

(** What [session.get] gives for an address: an exception, or a response
    with its Content-Type header, status and the href values of the <a>
    tags of the page, in document order. An address is fetched at most
    once in a crawl, so the answer may depend on the address only. The
    pause after each page (time.sleep(0.3)) has no model. *)
Inductive GetOutcome : Type :=
  | GetRaises
  | GetResponse (content_type : string) (status_code : Z) (hrefs : list string).

Class Web := { session_get : string -> GetOutcome }.

Definition _get_base_domain (netloc : string) : string :=
  remove_www (lower netloc).

Definition skip_extensions : list string :=
  [".doc"; ".docx"; ".jpg"; ".jpeg"; ".png"; ".gif"; ".webp"; ".svg";
   ".mp4"; ".mp3"; ".zip"].

(** How the sitemap loop classifies one <url> element. *)
Inductive Entry : Type :=
  | Skipped
  | PdfEntry (url : string)
  | PageEntry (url : string).

Definition classify `{Urllib} (url_elem : UrlElem) : Entry :=
  match url_elem with
  | NoLoc | Loc None => Skipped
  | Loc (Some text) =>
      if bool_decide (text = "") then Skipped
      else
        let url := strip text in
        let lower_url := lower url in
        let ext := splitext_ext (urlparse_path lower_url) in
        if bool_decide (ext ∈ skip_extensions) then Skipped
        else if endswith lower_url ".pdf" then PdfEntry url
        else PageEntry url
  end.

(** One iteration of the loop of [_load_sitemap]. *)
Definition sitemap_step `{Urllib} (cfg : config)
    (acc : gset string * gset string) (url_elem : UrlElem)
  : gset string * gset string :=
  let '(page_urls, pdf_urls) := acc in
  match classify url_elem with
  | Skipped => acc
  | PdfEntry url =>
      if size pdf_urls <? MAX_PDFS cfg then (page_urls, pdf_urls ∪ {[url]}) else acc
  | PageEntry url =>
      if size page_urls <? MAX_PAGES cfg then (page_urls ∪ {[url]}, pdf_urls) else acc
  end.

Definition _load_sitemap `{Urllib} `{XmlParser} (cfg : config) (sitemap : string)
  : result (gset string * gset string) :=
  match et_parse sitemap with
  | Raise e => Raise e
  | Ok url_elems => Ok (foldl (sitemap_step cfg) (∅, ∅) url_elems)
  end.

(** The state of the loop of [_bfs_crawl]; [fetched] lists the addresses
    given to [session.get], oldest first. *)
Record bfs_state : Type := mkBfs {
  queue : list string;
  visited : gset string;
  page_urls : gset string;
  pdf_urls : gset string;
  fetched : list string
}.

(** The loop over the <a href> values of a fetched page: the addresses to
    append to the queue. *)
Definition links_to_queue `{Urllib} (base_domain url : string) (hrefs : list string)
  : list string :=
  omap (fun raw =>
          let href := strip raw in
          if startswith href "javascript:" || startswith href "mailto:" ||
             startswith href "tel:" || startswith href "#"
          then None
          else
            let full_url := urljoin url href in
            if bool_decide (_get_base_domain (urlparse_netloc full_url) = base_domain)
            then Some full_url else None)
       hrefs.

(** One iteration of the while loop; [None] when the loop is left (empty
    queue, or both caps reached). *)
Definition bfs_step `{Urllib} `{Web} (cfg : config) (base_domain : string)
    (st : bfs_state) : option bfs_state :=
  match queue st with
  | [] => None
  | url0 :: queue' =>
      if (MAX_PAGES cfg <=? size (page_urls st)) && (MAX_PDFS cfg <=? size (pdf_urls st))
      then None
      else
        let url := rstrip_slash (before_hash url0) in
        let st1 := mkBfs queue' (visited st) (page_urls st) (pdf_urls st) (fetched st) in
        if negb (startswith url "http") then Some st1
        else if bool_decide (url ∈ visited st) then Some st1
        else
          let st2 := mkBfs queue' (visited st ∪ {[url]}) (page_urls st) (pdf_urls st)
                           (fetched st) in
          if negb (bool_decide (_get_base_domain (urlparse_netloc url) = base_domain))
          then Some st2
          else if endswith (lower url) ".pdf" then
            if size (pdf_urls st) <? MAX_PDFS cfg
            then Some (mkBfs queue' (visited st ∪ {[url]}) (page_urls st)
                             (pdf_urls st ∪ {[url]}) (fetched st))
            else Some st2
          else if MAX_PAGES cfg <=? size (page_urls st) then Some st2
          else
            let st3 := mkBfs queue' (visited st ∪ {[url]}) (page_urls st) (pdf_urls st)
                             (fetched st ++ [url]) in
            match session_get url with
            | GetRaises => Some st3
            | GetResponse content_type status_code hrefs =>
                if negb (contains "text/html" content_type) then Some st3
                else if ((400 <=? status_code) && (status_code <? 600))%Z then Some st3
                else Some (mkBfs (queue' ++ links_to_queue base_domain url hrefs)
                                 (visited st ∪ {[url]})
                                 (page_urls st ∪ {[url]}) (pdf_urls st)
                                 (fetched st ++ [url]))
            end
  end.

(** The while loop, for at most [fuel] iterations; [None]: still running. *)
Fixpoint bfs_loop `{Urllib} `{Web} (cfg : config) (base_domain : string)
    (fuel : nat) (st : bfs_state) : option bfs_state :=
  match fuel with
  | O => None
  | S fuel' =>
      match bfs_step cfg base_domain st with
      | None => Some st
      | Some st' => bfs_loop cfg base_domain fuel' st'
      end
  end.

(** seed = seed_url or config.TARGET_DOMAIN *)
Definition seed_of (cfg : config) (seed_url : option string) : string :=
  match seed_url with
  | Some u => if bool_decide (u = "") then TARGET_DOMAIN cfg else u
  | None => TARGET_DOMAIN cfg
  end.

Definition bfs_init (seed : string) : bfs_state := mkBfs [seed] ∅ ∅ ∅ [].

(** What a crawl did: its result (or exception) and the addresses fetched. *)
Definition crawled : Type := result (gset string * gset string) * list string.

Definition _bfs_crawl `{Urllib} `{Web} (cfg : config) (seed_url : option string)
    (fuel : nat) : option crawled :=
  let seed := seed_of cfg seed_url in
  let base_domain := _get_base_domain (urlparse_netloc seed) in
  (fun st => (Ok (page_urls st, pdf_urls st), fetched st)) <$>
    bfs_loop cfg base_domain fuel (bfs_init seed).

(** [crawl]: [sitemap_file] is the content of sitemap.xml next to the
    sources, [None] when there is no such file. *)
Definition crawl `{Urllib} `{XmlParser} `{Web} (cfg : config)
    (sitemap_file : option string) (seed_url : option string) (fuel : nat)
  : option crawled :=
  match sitemap_file with
  | Some sitemap => Some (_load_sitemap cfg sitemap, [])
  | None => _bfs_crawl cfg seed_url fuel
  end.

(** A URL that ends with ".pdf", case-insensitively. *)
Definition is_pdf (url : string) : Prop := endswith (lower url) ".pdf" = true.


(** Pages and PDFs are told apart by one test on the address. *)
Definition sorted_by_suffix (pages pdfs : gset string) : Prop :=
  (∀ u, u ∈ pdfs → is_pdf u) ∧ (∀ u, u ∈ pages → ¬ is_pdf u).


(** Every admitted address has the given base domain. *)
Definition in_scope `{Urllib} (base_domain : string) (st : bfs_state) : Prop :=
  ∀ u, u ∈ page_urls st ∪ pdf_urls st →
       _get_base_domain (urlparse_netloc u) = base_domain.

End Spider.

(* ===================================================================== *)
(** ** processor/chunker.py and the extraction collaborators              *)
(* ===================================================================== *)

Module Chunker.
Import Deduplicator.

(** A document dict, as the extractors return it. *)
Record Document : Type := mkDocument {
  doc_url : string;
  doc_title : string;
  doc_content : string;
  doc_type : string
}.

(** What lies outside the program: the text the extractors get out of a
    page or a PDF (title and clean text, [None] when they give up), and
    the text splitter of the library. *)
Class Collaborators := {
  html_text : string -> option (string * string);
  pdf_text : string -> option (string * string);
  split_text : string -> list string
}.

Definition extract_text_from_html `{Collaborators} (u : string) : option Document :=
  (fun '(t, c) => mkDocument u t c "html") <$> html_text u.

Definition extract_text_from_pdf `{Collaborators} (u : string) : option Document :=
  (fun '(t, c) => mkDocument u t c "pdf") <$> pdf_text u.

(** enumerate(texts) turned into chunk dicts. *)
Definition chunk_document `{Collaborators} (document : Document) : list Chunk :=
  imap (fun i text =>
          mkChunk (doc_url document) (doc_title document) (doc_type document) i text)
       (split_text (doc_content document)).

End Chunker.

(* ===================================================================== *)
(** ** main.py                                                            *)
(* ===================================================================== *)

Module Main.
Import Deduplicator SupabaseClient Chunker Embedder.

(** What a run reports before it returns. *)
Inductive Summary : Type :=
  | NothingToDo
  | UpToDate
  | Complete (documents chunks_uploaded new_urls changed_urls : nat).

(** Steps 2 and 3: extract every URL, drop the failures, chunk the rest. *)
Definition extract_documents `{Collaborators} (page_urls pdf_urls : gset string)
  : list Document :=
  omap extract_text_from_html (elements page_urls) ++
  omap extract_text_from_pdf (elements pdf_urls).

Definition chunk_documents `{Collaborators} (documents : list Document) : list Chunk :=
  documents ≫= chunk_document.

(** {c["url"] for c in all_chunks} - set(existing_hashes.keys()) *)
Definition new_urls_of (all_chunks : list HChunk)
    (existing_hashes : gmap string (gset string)) : gset string :=
  list_to_set ((fun c : HChunk => url c) <$> all_chunks) ∖ dom existing_hashes.

(** urls_to_process = changed_urls | new_urls *)
Definition urls_to_process_of (all_chunks : list HChunk)
    (existing_hashes : gmap string (gset string)) : gset string :=
  find_changed_urls all_chunks existing_hashes ∪ new_urls_of all_chunks existing_hashes.

(** The embedding loop of step 6: one [embed_texts] call per text. *)
Fixpoint embed_all `{EdgeFunction} (texts : list string) : M (list Vec) :=
  match texts with
  | [] => mret []
  | text :: rest =>
      emb ← embed_texts [text];
      embs ← embed_all rest;
      mret (emb ++ embs)
  end.

(** list.sort(key=...): stable, by the order of [str]. *)
Fixpoint insert_by {A} (key : A -> string) (x : A) (l : list A) : list A :=
  match l with
  | [] => [x]
  | y :: l' =>
      if String.leb (key x) (key y) then x :: y :: l' else y :: insert_by key x l'
  end.

Definition sort_by {A} (key : A -> string) (l : list A) : list A :=
  foldr (insert_by key) [] l.

(** itertools.groupby: maximal runs of consecutive items with equal keys. *)
Fixpoint groupby {A} (key : A -> string) (l : list A) : list (string * list A) :=
  match l with
  | [] => []
  | x :: l' =>
      match groupby key l' with
      | (k, g) :: gs =>
          if decide (key x = k) then (k, x :: g) :: gs
          else (key x, [x]) :: (k, g) :: gs
      | [] => [(key x, [x])]
      end
  end.

Definition pair_url (ce : HChunk * Vec) : string := url (fst ce).

(** Steps 4 to 7, from the chunks of this run on. *)
Definition sync `{Hashlib} `{EdgeFunction} (n_documents : nat) (all_chunks0 : list Chunk)
  : M Summary :=
  let all_chunks := compute_hashes_for_chunks all_chunks0 in
  existing_hashes ← get_existing_hashes;
  let changed_urls := find_changed_urls all_chunks existing_hashes in
  let new_urls := new_urls_of all_chunks existing_hashes in
  let urls_to_process := urls_to_process_of all_chunks existing_hashes in
  if decide (urls_to_process = ∅) then mret UpToDate
  else
    let chunks_to_upload :=
      filter (fun c : HChunk => url c ∈ urls_to_process) all_chunks in
    for_each (elements changed_urls) delete_chunks_for_url;;
    let texts := (fun c : HChunk => content c) <$> chunks_to_upload in
    all_embeddings ← embed_all texts;
    let chunks_with_emb := sort_by pair_url (zip chunks_to_upload all_embeddings) in
    for_each (groupby pair_url chunks_with_emb)
             (fun '(_, group_list) =>
                upsert_chunks (fst <$> group_list) (snd <$> group_list));;
    mret (Complete n_documents (length chunks_to_upload)
                   (size new_urls) (size changed_urls)).

(** The chunks of a run, fingerprinted: steps 2 to 4 on what was crawled. *)
Definition fresh_chunks `{Hashlib} `{Collaborators} (page_urls pdf_urls : gset string)
  : list HChunk :=
  compute_hashes_for_chunks (chunk_documents (extract_documents page_urls pdf_urls)).

(** [run_pipeline], given what [crawl] did (its result or its exception). *)
Definition run_pipeline `{Hashlib} `{EdgeFunction} `{Collaborators}
    (cfg : Config.config) (crawled : result (gset string * gset string))
  : M Summary :=
  match Config.validate cfg with
  | Raise e => raise e
  | Ok _ =>
      match crawled with
      | Raise e => raise e
      | Ok (page_urls, pdf_urls) =>
          let documents := extract_documents page_urls pdf_urls in
          match documents with
          | [] => mret NothingToDo
          | _ => sync (length documents) (chunk_documents documents)
          end
      end
  end.

(** The whole program: [config.validate()], [crawl()], then the rest.
    [None]: the breadth-first crawl is still running after [fuel] steps. *)
Definition main `{Hashlib} `{EdgeFunction} `{Collaborators}
    `{Spider.Urllib} `{Spider.XmlParser} `{Spider.Web}
    (cfg : Config.config) (sitemap_file : option string) (fuel : nat) (w : world)
  : option (result Summary * world) :=
  match Config.validate cfg with
  | Raise e => Some (Raise e, w)
  | Ok _ =>
      match Spider.crawl cfg sitemap_file None fuel with
      | None => None
      | Some (crawled, _) => Some (run_pipeline cfg crawled w)
      end
  end.

End Main.

(* ===================================================================== *)
(** ** Small concrete worlds, to run the definitions on                   *)
(* ===================================================================== *)

Module Examples.
Import Deduplicator SupabaseClient Chunker Embedder Main.

(** A stand-in digest (injective, not SHA-256), enough to run the code. *)
Definition toy_hashlib : Hashlib := {| sha256_hexdigest := fun s => "#" +:+ s |}.

(** An Edge Function that is down: every POST is answered 503. *)
Definition edge_down : EdgeFunction :=
  {| edge_answer := fun _ _ => PostResponse 503 (JsonObject None) |}.

(** An Edge Function that answers 503 twice and then recovers. *)
Definition edge_flaky : EdgeFunction :=
  {| edge_answer := fun n _ =>
       if n <? 2 then PostResponse 503 (JsonObject None)
       else PostResponse 200 (JsonObject (Some [])) |}.

(** An Edge Function that cannot be reached. *)
Definition edge_unreachable : EdgeFunction :=
  {| edge_answer := fun _ _ => PostRaises "ConnectionError" |}.

(** An Edge Function that refuses every request (403). *)
Definition edge_forbidden : EdgeFunction :=
  {| edge_answer := fun _ _ => PostResponse 403 (JsonObject None) |}.

(** An Edge Function that answers 200 with a JSON object that has no
    'embedding'. *)
Definition edge_no_key : EdgeFunction :=
  {| edge_answer := fun _ _ => PostResponse 200 (JsonObject None) |}.

(** An Edge Function that always answers with an (empty) embedding. *)
Definition edge_up : EdgeFunction :=
  {| edge_answer := fun _ _ => PostResponse 200 (JsonObject (Some [])) |}.

(** A site of two pages; the splitter keeps each text whole. *)
Definition site_v1 : Collaborators :=
  {| html_text := fun u => if decide (u = "A") then Some ("Page A", "hello world")
                           else if decide (u = "B") then Some ("Page B", "about us")
                           else None;
     pdf_text := fun _ => None;
     split_text := fun text => [text] |}.

(** The same site after page A was edited. *)
Definition site_v2 : Collaborators :=
  {| html_text := fun u => if decide (u = "A") then Some ("Page A", "goodbye world")
                           else if decide (u = "B") then Some ("Page B", "about us")
                           else None;
     pdf_text := fun _ => None;
     split_text := fun text => [text] |}.

Definition cfg0 : Config.config :=
  Config.mkConfig (Some "https://project.supabase.co") (Some "service") (Some "anon")
                  "https://www.ycce.edu" 500 200.

Definition world0 : world := mkWorld [] [] 0 [] 0.

Definition pages_ab : gset string := {["A"; "B"]}.

(** First run on the empty table, then a run after page A changed. *)
Definition run1 : result Summary * world :=
  Eval vm_compute in
    @run_pipeline toy_hashlib edge_up site_v1 cfg0 (Ok (pages_ab, ∅)) world0.

Definition run2 : result Summary * world :=
  Eval vm_compute in
    @run_pipeline toy_hashlib edge_up site_v2 cfg0 (Ok (pages_ab, ∅)) run1.2.

(** Stand-ins for urllib.parse and os.path on plain absolute addresses
    "scheme://authority/path" (joining an absolute address to a base gives
    that address): enough to run the crawler on examples. *)
Fixpoint after_scheme (s : string) : option string :=
  match s with
  | String ":" (String "/" (String "/" rest)) => Some rest
  | String _ s' => after_scheme s'
  | EmptyString => None
  end.

Fixpoint until_delim (s : string) : string :=
  match s with
  | String c s' =>
      if bool_decide (c = "/"%char ∨ c = "?"%char ∨ c = "#"%char) then EmptyString
      else String c (until_delim s')
  | EmptyString => EmptyString
  end.

Fixpoint until_query (s : string) : string :=
  match s with
  | String c s' =>
      if bool_decide (c = "?"%char ∨ c = "#"%char) then EmptyString
      else String c (until_query s')
  | EmptyString => EmptyString
  end.

Fixpoint from_slash (s : string) : string :=
  match s with
  | String c s' =>
      if bool_decide (c = "/"%char) then String c (until_query s') else from_slash s'
  | EmptyString => EmptyString
  end.

Definition toy_netloc (u : string) : string :=
  match after_scheme u with Some rest => until_delim rest | None => "" end.

Definition toy_path (u : string) : string :=
  match after_scheme u with Some rest => from_slash rest | None => u end.

(** The extension of the last path segment, read from the end. *)
Fixpoint ext_rev (acc rev_path : string) : string :=
  match rev_path with
  | String c s' =>
      if bool_decide (c = "."%char) then String c acc
      else if bool_decide (c = "/"%char) then ""
      else ext_rev (String c acc) s'
  | EmptyString => ""
  end.

Definition toy_ext (path : string) : string := ext_rev "" (String.rev path).

Definition toy_urllib : Spider.Urllib :=
  {| Spider.urlparse_netloc := toy_netloc;
     Spider.urlparse_path := toy_path;
     Spider.urljoin := fun _ href => href;
     Spider.splitext_ext := toy_ext |}.

(** A parser that rejects the text "<urlset" (an unclosed tag) and reads
    anything else as an empty sitemap. *)
Definition toy_xml : Spider.XmlParser :=
  {| Spider.et_parse := fun text =>
       if bool_decide (text = "<urlset") then Raise ParseError else Ok [] |}.

(** A web of one host, https://example.org: its front page links to a page
    of the www. name of the same host, to a PDF on another host whose name
    only contains "www.", and to a page of a third host. *)
Definition small_web : Spider.Web :=
  {| Spider.session_get := fun u =>
       if bool_decide (u = "https://example.org")
       then Spider.GetResponse "text/html; charset=utf-8" 200
              ["https://www.example.org/x"; "https://exwww.ample.org/leak.pdf";
               "https://other.org/anything"; "https://example.org/report.pdf";
               "mailto:a@example.org"]
       else if bool_decide (u = "https://www.example.org/x")
       then Spider.GetResponse "text/html" 200 ["https://example.org/#top"]
       else Spider.GetRaises |}.

Definition cfg_example : Config.config :=
  Config.mkConfig (Some "https://project.supabase.co") (Some "service") (Some "anon")
                  "https://example.org/" 500 200.

Definition small_crawl : option Spider.crawled :=
  Eval vm_compute in
    @Spider.crawl toy_urllib toy_xml small_web cfg_example None None 20.

Definition small_result : gset string * gset string :=
  match small_crawl with Some (Ok r, _) => r | _ => (∅, ∅) end.

Definition small_log : list string :=
  match small_crawl with Some (_, log) => log | None => [] end.




(** A heap with a list [0] of three references, two of them to the same
    dict: chunks [1; 2; 1]. *)
Definition small_heap : PyHeap.heap :=
  {[ 0 := PyHeap.OList [1; 2; 1];
     1 := PyHeap.ODict (PyHeap.dict_of_chunk (mkChunk "A" "Page A" "html" 0 "hello world"));
     2 := PyHeap.ODict (PyHeap.dict_of_chunk (mkChunk "A" "Page A" "html" 1 "again")) ]}.

(** A heap whose list [0] refers to a good chunk dict, then to a dict
    without 'content', then to another good one: chunks [1; 3; 2]. *)
Definition broken_heap : PyHeap.heap :=
  {[ 0 := PyHeap.OList [1; 3; 2];
     1 := PyHeap.ODict (PyHeap.dict_of_chunk (mkChunk "A" "Page A" "html" 0 "hello world"));
     2 := PyHeap.ODict (PyHeap.dict_of_chunk (mkChunk "A" "Page A" "html" 1 "again"));
     3 := PyHeap.ODict {["url" := PyHeap.VStr "A"]} ]}.

(** A fingerprinted chunk of page A with the given fingerprint. *)
Definition chunk_a (i : nat) (h : string) : HChunk :=
  mkHChunk (mkChunk "A" "Page A" "html" i "text") h.

Definition chunk_b : HChunk := mkHChunk (mkChunk "B" "Page B" "html" 0 "about us") "#about us".

End Examples.

(* ===================================================================== *)
(** ** Further definitions, for the properties beyond the specification   *)
(* ===================================================================== *)

Module More.
Import PyStr Config Spider.



(** The address as the loop of [_bfs_crawl] looks at it:
    url.split("#")[0].rstrip("/") *)
Definition normalise (url : string) : string := rstrip_slash (before_hash url).

(** Every character of the string passes the test. *)
Fixpoint all_chars (ok : ascii → bool) (s : string) : bool :=
  match s with
  | EmptyString => true
  | String c s' => ok c && all_chars ok s'
  end.

Definition not_hash (c : ascii) : bool := negb (bool_decide (c = "#"%char)).

Definition is_ascii (c : ascii) : bool := nat_of_ascii c <? 128.

(** An ASCII character other than a square bracket. [urlparse] raises
    ValueError only on an authority with brackets that do not match or do
    not hold an address, or on one outside ASCII whose NFKC form has a
    delimiter: on a string of these characters it returns. *)
Definition plain_char (c : ascii) : bool :=
  is_ascii c && negb (bool_decide (c = "["%char)) && negb (bool_decide (c = "]"%char)).

(** What the loop of [_bfs_crawl] keeps true about the addresses it
    admits: each is the normal form of some address and starts with
    "http". *)
Definition admitted_normal (st : bfs_state) : Prop :=
  ∀ u, u ∈ page_urls st ∪ pdf_urls st →
       startswith u "http" = true ∧ ∃ q, u = normalise q.

(** What the loop of [_bfs_crawl] keeps true about the addresses it gave
    to [session.get]. *)
Definition fetch_discipline `{Urllib} (base_domain : string) (st : bfs_state) : Prop :=
  NoDup (fetched st) ∧
  (∀ u, u ∈ fetched st → u ∈ visited st) ∧
  (∀ u, u ∈ fetched st →
        startswith u "http" = true ∧
        _get_base_domain (urlparse_netloc u) = base_domain ∧
        ¬ is_pdf u) ∧
  (∀ u, u ∈ page_urls st → u ∈ fetched st).

(** The order [list.sort(key=...)] sorts by: the keys compared as [str]. *)
Definition key_le {A} (key : A → string) (a b : A) : Prop :=
  String.le (key a) (key b).

(** Both result sets are within their caps. *)
Definition within_caps (cfg : config) (pages pdfs : gset string) : Prop :=
  size pages ≤ MAX_PAGES cfg ∧ size pdfs ≤ MAX_PDFS cfg.

(** A configuration without the service key. *)
Definition cfg_no_key : config :=
  mkConfig (Some "https://project.supabase.co") None (Some "anon")
           "https://www.ycce.edu" 500 200.

(** A configuration whose target has no scheme. *)
Definition cfg_no_scheme : config :=
  mkConfig (Some "https://project.supabase.co") (Some "service") (Some "anon")
           "www.ycce.edu" 500 200.


End More.

(* ===================================================================== *)
(** * Theorems                                                            *)
(* ===================================================================== *)

Module DeduplicatorFacts.
Import Deduplicator.

Lemma setdefault_add_lookup m c u :
  setdefault_add m c !! u =
  if decide (url c = u) then Some (default ∅ (m !! u) ∪ {[content_hash c]}) else m !! u.
Proof.
  unfold setdefault_add. case_decide as E.
  - subst u. by rewrite lookup_insert_eq.
  - by rewrite lookup_insert_ne.
Qed.

Lemma fresh_fingerprints_cons (c : HChunk) cs u :
  fresh_fingerprints (c :: cs) u =
  if decide (url c = u) then {[content_hash c]} ∪ fresh_fingerprints cs u
  else fresh_fingerprints cs u.
Proof.
  unfold fresh_fingerprints. rewrite filter_cons.
  destruct (decide (url c = u)); done.
Qed.

Lemma fresh_fingerprints_absent (cs : list HChunk) u :
  u ∉ (fun c : HChunk => url c) <$> cs → fresh_fingerprints cs u = ∅.
Proof.
  induction cs as [|c cs IH]; [done|].
  rewrite fmap_cons, not_elem_of_cons, fresh_fingerprints_cons.
  intros [Hne Hnin]. rewrite decide_False by done. auto.
Qed.

Lemma group_by_url_acc (cs : list HChunk) (m : gmap string (gset string)) u :
  foldl setdefault_add m cs !! u =
  if decide (u ∈ (fun c : HChunk => url c) <$> cs)
  then Some (default ∅ (m !! u) ∪ fresh_fingerprints cs u)
  else m !! u.
Proof.
  revert m. induction cs as [|c cs IH]; intros m.
  - rewrite decide_False; [done | by intros ?%elem_of_nil].
  - cbn [foldl]. rewrite IH, setdefault_add_lookup, fresh_fingerprints_cons.
    rewrite fmap_cons.
    destruct (decide (url c = u)) as [E|Hne].
    + rewrite (decide_True (P := u ∈ _ :: _)) by (rewrite <- E; left).
      cbn [default]. case_decide as E1; f_equal.
      * set_solver.
      * rewrite (fresh_fingerprints_absent cs u E1). set_solver.
    + case_decide as E1; case_decide as E2; try done.
      * destruct E2. by right.
      * apply elem_of_cons in E2 as [->|?]; done.
Qed.

Lemma group_by_url_lookup (cs : list HChunk) u :
  group_by_url cs !! u =
  if decide (u ∈ (fun c : HChunk => url c) <$> cs)
  then Some (fresh_fingerprints cs u) else None.
Proof.
  unfold group_by_url. rewrite group_by_url_acc, lookup_empty. simpl.
  case_decide; [f_equal; set_solver | done].
Qed.

Lemma changed_fold_spec (e m : gmap string (gset string)) u :
  u ∈ map_fold (compare_url e) ∅ m ↔
  ∃ s, m !! u = Some s ∧ s ≠ get_or_empty e u.
Proof.
  apply (map_fold_weak_ind
    (fun r m => u ∈ r ↔ ∃ s, m !! u = Some s ∧ s ≠ get_or_empty e u)).
  - split; [set_solver | intros (s & Hs & _); by rewrite lookup_empty in Hs].
  - intros i x m' r Hi IH. unfold compare_url.
    destruct (decide (i = u)) as [->|Hne].
    + rewrite lookup_insert_eq.
      assert (u ∉ r) as Hr.
      { intros Hin. apply IH in Hin as (s & Hs & _). congruence. }
      case_decide as E.
      * split; [eauto | set_solver].
      * split; [done | intros (s & [= <-] & Hs); by destruct E].
    + rewrite lookup_insert_ne by done.
      case_decide; rewrite <- IH; set_solver.
Qed.

Lemma elem_of_find_changed_urls (new_chunks : list HChunk)
    (existing_hashes : gmap string (gset string)) (u : string) :
  u ∈ find_changed_urls new_chunks existing_hashes ↔
  u ∈ (fun c : HChunk => url c) <$> new_chunks ∧
  fresh_fingerprints new_chunks u ≠ default ∅ (existing_hashes !! u).
Proof.
  unfold find_changed_urls. rewrite changed_fold_spec, group_by_url_lookup.
  unfold get_or_empty. case_decide as E.
  - split; [intros (s & [= <-] & Hs); done | intros [_ Hs]; eauto].
  - split; [intros (s & [=] & _) | intros [Hin _]; done].
Qed.

(** C1. [find_changed_urls] returns exactly the URLs that occur among the
    fresh chunks and whose set of fresh fingerprints differs, as a set, from
    the prior set for that URL (the empty set when the URL has no prior
    entry). *)
Theorem find_changed_urls_spec (new_chunks : list HChunk)
    (existing_hashes : gmap string (gset string)) (u : string) :
  u ∈ find_changed_urls new_chunks existing_hashes ↔
  u ∈ (fun c : HChunk => url c) <$> new_chunks ∧
  fresh_fingerprints new_chunks u ≠
    match existing_hashes !! u with Some prior => prior | None => ∅ end.
Proof.
  unfold find_changed_urls. rewrite changed_fold_spec, group_by_url_lookup.
  unfold get_or_empty, default. case_decide as Hfresh.
  - split.
    + intros (s & Hs & Hdiff). injection Hs as <-. by split.
    + intros [_ Hdiff]. by exists (fresh_fingerprints new_chunks u).
  - split.
    + intros (s & Hs & _). discriminate Hs.
    + intros [Hin _]. by destruct Hfresh.
Qed.

(** The comparison is one of sets: order and repetition of the fresh
    fingerprints do not matter, a different member does. *)
Example unchanged_url_excluded :
  find_changed_urls
    [Examples.chunk_a 0 "h2"; Examples.chunk_a 1 "h1"; Examples.chunk_a 2 "h2"]
    {["A" := {["h1"; "h2"]}]} = ∅.
Proof. by vm_compute. Qed.

Example changed_url_included :
  find_changed_urls [Examples.chunk_a 0 "h1"; Examples.chunk_a 1 "h3"]
                    {["A" := {["h1"; "h2"]}]} = {["A"]}.
Proof. by vm_compute. Qed.

Lemma elem_of_fresh_fingerprints (cs : list HChunk) u h :
  h ∈ fresh_fingerprints cs u ↔ (u, h) ∈ chunk_key <$> cs.
Proof.
  unfold fresh_fingerprints. rewrite elem_of_list_to_set, !list_elem_of_fmap.
  split.
  - intros (c & -> & [Hu Hc]%list_elem_of_filter). exists c. by rewrite <- Hu.
  - intros (c & [= -> ->] & Hc). exists c. split; [done|].
    by apply list_elem_of_filter.
Qed.

(** A URL that occurs among the chunks has at least one fingerprint. *)
Lemma fresh_fingerprints_nonempty (cs : list HChunk) u :
  u ∈ (fun c : HChunk => url c) <$> cs → fresh_fingerprints cs u ≠ ∅.
Proof.
  intros (c & -> & Hc)%list_elem_of_fmap Hempty.
  assert (content_hash c ∈ fresh_fingerprints cs (url c)) as Hin.
  { apply elem_of_fresh_fingerprints, list_elem_of_fmap. by exists c. }
  rewrite Hempty in Hin. set_solver.
Qed.

End DeduplicatorFacts.

(* --------------------------------------------------------------------- *)
(** ** SHA-256: the test vectors                                          *)
(* --------------------------------------------------------------------- *)

Module SHA256Facts.
Import SHA256.

(** The digests of the empty message, of 'abc' and of the message of 56
    bytes that takes two blocks (FIPS 180-4, examples), as
    [hashlib.sha256(...).hexdigest()] prints them. *)
Example hexdigest_empty :
  hexdigest "" = "e3b0c44298fc1c149afbf4c8996fb92427ae41e4649b934ca495991b7852b855".
Proof. vm_compute. reflexivity. Qed.

Example hexdigest_abc :
  hexdigest "abc" = "ba7816bf8f01cfea414140de5dae2223b00361a396177a9cb410ff61f20015ad".
Proof. vm_compute. reflexivity. Qed.

Example hexdigest_two_blocks :
  hexdigest "abcdbcdecdefdefgefghfghighijhijkijkljklmklmnlmnomnopnopq" =
  "248d6a61d20638b8e5c026930c3e6039a33ce45964ff2167f6ecedd419db06c1".
Proof. vm_compute. reflexivity. Qed.

(** The constants computed from the primes are the 64 and the 8 of the
    standard, from 428a2f98 to c67178f2 and from 6a09e667 to 5be0cd19. *)
Example constants_ends :
  length K = 64 ∧ head K = Some 0x428a2f98%Z ∧ last K = Some 0xc67178f2%Z ∧
  length H0 = 8 ∧ head H0 = Some 0x6a09e667%Z ∧ last H0 = Some 0x5be0cd19%Z.
Proof. vm_compute. done. Qed.

End SHA256Facts.

(* --------------------------------------------------------------------- *)
(** ** str.strip on white space beyond ASCII                              *)
(* --------------------------------------------------------------------- *)

Module PyStrFacts.
Import PyStr.

(** A no-break space (U+00A0) in front and an em space (U+2003) at the
    end are stripped like the blanks next to them; the blank inside
    stays. *)
Example strip_unicode_space :
  strip (String "194" (String "160" (" x y " +:+ String "226" (String "128" (String "131" "")))))
  = "x y".
Proof. vm_compute. reflexivity. Qed.

(** Bytes that only look like the tail of a white-space character are
    kept: the e with acute accent (C3 A9) ends in no space. *)
Example strip_keeps_letters :
  strip (" caf" +:+ String "195" (String "169" " ")) = "caf" +:+ String "195" (String "169" "").
Proof. vm_compute. reflexivity. Qed.

End PyStrFacts.

(* --------------------------------------------------------------------- *)
(** ** Facts about [compute_hashes_for_chunks] on the heap                *)
(* --------------------------------------------------------------------- *)

Module PyHeapFacts.
Import Deduplicator PyHeap.

Lemma hashed_content `{Hashlib} d : hashed d !! "content" = d !! "content".
Proof.
  unfold hashed. destruct (d !! "content") as [[text| |]|] eqn:E; try done.
  by rewrite lookup_insert_ne.
Qed.

(** Fingerprinting a dict twice is fingerprinting it once. *)
Lemma hashed_idemp `{Hashlib} d : hashed (hashed d) = hashed d.
Proof.
  unfold hashed at 1. rewrite hashed_content. unfold hashed.
  destruct (d !! "content") as [[text| |]|] eqn:E; try done.
  apply insert_insert_eq.
Qed.

Lemma hash_object_idemp `{Hashlib} o : hash_object (hash_object o) = hash_object o.
Proof. destruct o; [|done]. cbn. by rewrite hashed_idemp. Qed.

Lemma hash_chunk_ok `{Hashlib} l h :
  chunk_dict_at h l →
  hash_chunk l h = (Ok tt, alter hash_object l h).
Proof.
  intros (d & text & Hl & Hc). unfold hash_chunk. rewrite Hl, Hc. f_equal.
  apply map_eq. intros l'. rewrite lookup_alter. case_decide as E.
  - subst l'. rewrite lookup_insert_eq, Hl. cbn. unfold hashed. by rewrite Hc.
  - by rewrite lookup_insert_ne.
Qed.

Lemma chunk_dict_at_alter `{Hashlib} l l' h :
  chunk_dict_at h l' → chunk_dict_at (alter hash_object l h) l'.
Proof.
  intros (d & text & Hl & Hc). unfold chunk_dict_at.
  rewrite lookup_alter. case_decide as E.
  - subst l'. exists (hashed d), text. rewrite Hl. split; [done|].
    by rewrite hashed_content.
  - by exists d, text.
Qed.

(** The loop updates the dict behind every listed reference, once or
    several times to the same effect, and nothing else. *)
Lemma hash_chunks_ok `{Hashlib} items h :
  (∀ l, l ∈ items → chunk_dict_at h l) →
  ∃ h', hash_chunks items h = (Ok tt, h') ∧
        ∀ l, h' !! l = if decide (l ∈ items) then hash_object <$> h !! l else h !! l.
Proof.
  revert h. induction items as [|l0 rest IH]; intros h Hall.
  - exists h. split; [done|]. intros l. rewrite decide_False; [done|].
    by intros ?%elem_of_nil.
  - cbn [hash_chunks]. rewrite hash_chunk_ok by (apply Hall; left).
    destruct (IH (alter hash_object l0 h)) as (h' & -> & Hh').
    { intros l Hl. apply chunk_dict_at_alter, Hall. by right. }
    exists h'. split; [done|]. intros l. rewrite Hh', lookup_alter.
    destruct (decide (l0 = l)) as [->|Hne].
    + rewrite (decide_True (P := l ∈ l :: rest)) by (left).
      case_decide; [|done].
      rewrite <- option_fmap_compose. apply option_fmap_ext. intros o. cbn.
      apply hash_object_idemp.
    + case_decide as E1; case_decide as E2; try done.
      * destruct E2. by right.
      * apply elem_of_cons in E2 as [->|?]; done.
Qed.

(** C9. On a list of chunk dicts (dicts whose 'content' is a string),
    [compute_hashes_for_chunks], run with the SHA-256 of hashlib, returns
    the reference it was given; the list behind it has the same items in
    the same order; the dict behind every item has 'content_hash' bound to
    the SHA-256 hex digest of the bytes of its 'content', every other key
    bound as before, and no key besides 'content_hash' added; all other
    objects of the heap are as they were. *)
Theorem compute_hashes_in_place (chunks : nat) (items : list nat) (h : heap) :
  h !! chunks = Some (OList items) →
  (∀ l, l ∈ items → chunk_dict_at h l) →
  ∃ h',
    @compute_hashes_for_chunks hashlib chunks h = (Ok chunks, h') ∧
    h' !! chunks = Some (OList items) ∧
    (∀ l d, l ∈ items → h !! l = Some (ODict d) →
       ∃ d' text,
         h' !! l = Some (ODict d') ∧
         d !! "content" = Some (VStr text) ∧
         d' !! "content_hash" = Some (VStr (SHA256.hexdigest text)) ∧
         (∀ k, k ≠ "content_hash" → d' !! k = d !! k) ∧
         dom d' = dom d ∪ {["content_hash"]}) ∧
    (∀ l, l ∉ items → h' !! l = h !! l).
Proof.
  intros Hlist Hall. unfold compute_hashes_for_chunks. rewrite Hlist.
  destruct (@hash_chunks_ok hashlib items h Hall) as (h' & -> & Hh').
  exists h'. split_and!; [done| | |].
  - rewrite Hh'. case_decide as E; [|done]. by rewrite Hlist.
  - intros l d Hl Hd. destruct (Hall l Hl) as (d0 & text & Hd0 & Hc).
    assert (d0 = d) as -> by congruence.
    exists (<["content_hash" := VStr (SHA256.hexdigest text)]> d), text.
    split_and!; [|done| | |].
    + rewrite Hh', decide_True, Hd by done. cbn. unfold hashed. by rewrite Hc.
    + apply lookup_insert_eq.
    + intros k Hk. by apply lookup_insert_ne.
    + rewrite dom_insert_L. set_solver.
  - intros l Hl. by rewrite Hh', decide_False.
Qed.

Lemma compute_hashes_in_place_witness :
  ∃ h',
    @compute_hashes_for_chunks hashlib 0 Examples.small_heap = (Ok 0, h') ∧
    h' !! 0 = Some (OList [1; 2; 1]) ∧
    (∀ l d, l ∈ [1; 2; 1] → Examples.small_heap !! l = Some (ODict d) →
       ∃ d' text,
         h' !! l = Some (ODict d') ∧
         d !! "content" = Some (VStr text) ∧
         d' !! "content_hash" = Some (VStr (SHA256.hexdigest text)) ∧
         (∀ k, k ≠ "content_hash" → d' !! k = d !! k) ∧
         dom d' = dom d ∪ {["content_hash"]}) ∧
    (∀ l, l ∉ [1; 2; 1] → h' !! l = Examples.small_heap !! l).
Proof.
  apply (compute_hashes_in_place 0 [1; 2; 1] Examples.small_heap).
  - reflexivity.
  - intros l Hl.
    assert (l = 1 ∨ l = 2) as [-> | ->] by set_solver.
    + eexists _, "hello world". split; reflexivity.
    + eexists _, "again". split; reflexivity.
Defined.

(** The fingerprints the call leaves in the dicts of [small_heap]: those
    of 'hello world' and of 'again'. *)
Example small_heap_fingerprints :
  ∃ h' d1 d2,
    @compute_hashes_for_chunks hashlib 0 Examples.small_heap = (Ok 0, h') ∧
    h' !! 1 = Some (ODict d1) ∧ h' !! 2 = Some (ODict d2) ∧
    d1 !! "content_hash" =
      Some (VStr "b94d27b9934d3e08a52e52d7da7dabfac484efe37a5380ee9088f7ace2efcde9") ∧
    d2 !! "content_hash" =
      Some (VStr "b4c9e14061c2fd453b36700e3b0da008db2189c711ac629f0f583089164e267d").
Proof.
  destruct (@hash_chunks_ok hashlib [1; 2; 1] Examples.small_heap)
    as (h' & Hrun & Hh').
  { intros l Hl. assert (l = 1 ∨ l = 2) as [-> | ->] by set_solver.
    - eexists _, "hello world". split; reflexivity.
    - eexists _, "again". split; reflexivity. }
  eexists h', _, _. split_and!.
  - unfold compute_hashes_for_chunks.
    replace (Examples.small_heap !! 0) with (Some (OList [1; 2; 1])) by reflexivity.
    by rewrite Hrun.
  - rewrite Hh', decide_True by set_solver. reflexivity.
  - rewrite Hh', decide_True by set_solver. reflexivity.
  - vm_compute. reflexivity.
  - vm_compute. reflexivity.
Qed.

(** A dict in place of the list is iterated over its keys: the empty dict
    is returned as it is, any other raises at [chunk["content"]]. *)
Example compute_hashes_of_dict `{Hashlib} :
  compute_hashes_for_chunks 0 {[ 0 := ODict ∅ ]} = (Ok 0, {[ 0 := ODict ∅ ]}) ∧
  fst (compute_hashes_for_chunks 0 {[ 0 := ODict {["url" := VStr "A"]} ]}) =
    Raise (TypeError "string indices must be integers").
Proof. split; reflexivity. Qed.

(** On the dicts of chunk records, the update in place is the map over
    values of [Deduplicator.compute_hashes_for_chunks]. *)
Lemma hashed_dict_of_chunk `{Hashlib} (c : Chunk) :
  hashed (dict_of_chunk c) =
  dict_of_hchunk (mkHChunk c (compute_hash (content c))).
Proof. reflexivity. Qed.

End PyHeapFacts.

(* --------------------------------------------------------------------- *)
(** ** Facts about lists                                                  *)
(* --------------------------------------------------------------------- *)

Module ListFacts.

Lemma filter_all {A} (P : A → Prop) `{!∀ x, Decision (P x)} (l : list A) :
  (∀ x, x ∈ l → P x) → filter P l = l.
Proof.
  induction l as [|x l IH]; intros Hall; [done|].
  rewrite filter_cons_True by (apply Hall; left).
  f_equal. apply IH. intros y Hy. apply Hall. by right.
Qed.

End ListFacts.

(* --------------------------------------------------------------------- *)
(** ** Facts about the world monad                                        *)
(* --------------------------------------------------------------------- *)

Module WorldFacts.

Lemma bind_ok {A B} (m : M A) (k : A → M B) w a w1 :
  m w = (Ok a, w1) → (m ≫= k) w = k a w1.
Proof. intros E. unfold mbind, M_bind, bind. by rewrite E. Qed.

Lemma bind_raise {A B} (m : M A) (k : A → M B) w e w1 :
  m w = (Raise e, w1) → (m ≫= k) w = (Raise e, w1).
Proof. intros E. unfold mbind, M_bind, bind. by rewrite E. Qed.

Lemma bind_inv {A B} (m : M A) (k : A → M B) w b w2 :
  (m ≫= k) w = (Ok b, w2) → ∃ a w1, m w = (Ok a, w1) ∧ k a w1 = (Ok b, w2).
Proof.
  unfold mbind, M_bind, bind. destruct (m w) as [[a|e] w1]; [eauto | done].
Qed.

End WorldFacts.

(* --------------------------------------------------------------------- *)
(** ** Facts about processor/embedder.py                                  *)
(* --------------------------------------------------------------------- *)

Module EmbedderFacts.
Import Embedder.
Local Open Scope Z_scope.

Lemma transient_is_retried status_code :
  transient_status status_code →
  (status_code =? 546) || (500 <=? status_code) = true.
Proof.
  intros [->|[Hlo _]]; [done|].
  apply orb_true_iff. right. by apply Z.leb_le.
Qed.

(** Each wait is twice the one before. *)
Lemma backoff_doubles attempt : backoff (S attempt) = 2 * backoff attempt.
Proof. unfold backoff. rewrite Nat2Z.inj_succ, Z.pow_succ_r by lia. lia. Qed.

(** While the Edge Function keeps answering with transient statuses, every
    remaining attempt is spent: one POST and one sleep each, then the
    RuntimeError after the loop. *)
Lemma call_embed_loop_transient `{EdgeFunction} text retries attempts w :
  (∀ k, (k < length attempts)%nat →
        ∃ status_code body,
          edge_answer (posts w + k)%nat text = PostResponse status_code body ∧
          transient_status status_code) →
  call_embed_loop text retries attempts w =
  (Raise (RuntimeError ("Failed to embed after " +:+ pretty retries +:+ " retries")),
   mkWorld (table w) (store_log w) (posts w + length attempts)%nat
           (slept w ++ (backoff <$> attempts)) (clock w)).
Proof.
  revert w. induction attempts as [|attempt rest IH]; intros w Hall.
  - cbn. rewrite Nat.add_0_r, app_nil_r. by destruct w.
  - destruct (Hall 0%nat) as (st & body & Hans & Htr); [cbn; lia|].
    rewrite Nat.add_0_r in Hans.
    cbn [call_embed_loop]. unfold mbind, M_bind, bind, try_except_request, requests_post.
    rewrite Hans. cbn. rewrite (transient_is_retried _ Htr). cbn.
    rewrite IH.
    + cbn. f_equal. f_equal; [lia|]. by rewrite <- app_assoc.
    + intros k Hk. cbn.
      destruct (Hall (S k)) as (st' & body' & Hans' & Htr'); [cbn; lia|].
      exists st', body'. split; [|done]. rewrite <- Hans'. f_equal. lia.
Qed.

(** C8. When the Edge Function answers the three attempts of a call with a
    transient server status (546 or 5xx), [_call_embed] makes exactly three
    POSTs, sleeps 2, 4 and 8 seconds (doubling), and raises RuntimeError:
    no embedding is returned. *)
Theorem call_embed_retry_ceiling `{EdgeFunction} (text : string) (w : world) :
  (∀ k, (k < 3)%nat →
        ∃ status_code body,
          edge_answer (posts w + k)%nat text = PostResponse status_code body ∧
          transient_status status_code) →
  _call_embed text default_retries w =
  (Raise (RuntimeError "Failed to embed after 3 retries"),
   mkWorld (table w) (store_log w) (posts w + 3)%nat
           (slept w ++ [2; 4; 8]) (clock w)).
Proof.
  intros Hall. unfold _call_embed, default_retries.
  by rewrite call_embed_loop_transient.
Qed.

(** Embedding never touches the table. *)
Lemma same_store_refl w : same_store w w.
Proof. done. Qed.

Lemma same_store_trans w1 w2 w3 :
  same_store w1 w2 → same_store w2 w3 → same_store w1 w3.
Proof. unfold same_store. intros (-> & -> & ->) (-> & -> & ->). done. Qed.

Lemma call_embed_loop_frame `{EdgeFunction} text retries attempts w :
  same_store w (call_embed_loop text retries attempts w).2.
Proof.
  revert w. induction attempts as [|attempt rest IH]; intros w; [done|].
  cbn [call_embed_loop].
  unfold mbind, M_bind, bind, try_except_request, requests_post.
  destruct (edge_answer (posts w) text) as [status_code body|d]; cbn.
  - destruct ((status_code =? 546) || (500 <=? status_code)); cbn.
    + eapply same_store_trans; [|apply IH]. done.
    + unfold raise_for_status.
      destruct ((400 <=? status_code) && (status_code <? 600)); cbn.
      * destruct (Z.of_nat attempt <? Z.of_nat retries - 1); cbn; [|done].
        eapply same_store_trans; [|apply IH]. done.
      * destruct body as [[v|]|]; cbn; try done.
        destruct (Z.of_nat attempt <? Z.of_nat retries - 1); cbn; [|done].
        eapply same_store_trans; [|apply IH]. done.
  - destruct (Z.of_nat attempt <? Z.of_nat retries - 1); cbn; [|done].
    eapply same_store_trans; [|apply IH]. done.
Qed.

Lemma call_embed_frame `{EdgeFunction} text retries w :
  same_store w (_call_embed text retries w).2.
Proof. apply call_embed_loop_frame. Qed.

Lemma embed_texts_frame `{EdgeFunction} texts w :
  same_store w (embed_texts texts w).2.
Proof.
  revert w. induction texts as [|text rest IH]; intros w; [done|].
  cbn [embed_texts]. unfold mbind, M_bind, bind.
  pose proof (call_embed_frame text default_retries w) as H1.
  destruct (_call_embed text default_retries w) as [[emb|e] w1]; [|done].
  pose proof (IH w1) as H2.
  destruct (embed_texts rest w1) as [[embs|e] w2]; cbn in *;
    by eapply same_store_trans.
Qed.

Lemma embed_texts_length `{EdgeFunction} texts w embs w' :
  embed_texts texts w = (Ok embs, w') → length embs = length texts.
Proof.
  revert w embs w'. induction texts as [|text rest IH]; intros w embs w'.
  - by intros [= <- _].
  - cbn [embed_texts]. intros (emb & w1 & _ & Hk)%WorldFacts.bind_inv.
    apply WorldFacts.bind_inv in Hk as (embs' & w2 & Hrest & [= <- _]).
    cbn. f_equal. by eapply IH.
Qed.

(** The other ways out of [_call_embed]: an answer at once, an answer
    after two transient failures, and a connection error on every attempt
    (two sleeps, then the error of the last attempt is raised again). *)
Example call_embed_at_once :
  @_call_embed Examples.edge_up "hello" default_retries Examples.world0 =
  (Ok [], mkWorld [] [] 1 [] 0).
Proof. reflexivity. Qed.

Example call_embed_recovers :
  @_call_embed Examples.edge_flaky "hello" default_retries Examples.world0 =
  (Ok [], mkWorld [] [] 3 [2; 4] 0).
Proof. reflexivity. Qed.

Example call_embed_unreachable :
  @_call_embed Examples.edge_unreachable "hello" default_retries Examples.world0 =
  (Raise (RequestException "ConnectionError"), mkWorld [] [] 3 [2; 4] 0).
Proof. reflexivity. Qed.

Lemma call_embed_retry_ceiling_witness :
  @_call_embed Examples.edge_down "hello" default_retries Examples.world0 =
  (Raise (RuntimeError "Failed to embed after 3 retries"),
   mkWorld [] [] 3 [2; 4; 8] 0).
Proof.
  apply (@call_embed_retry_ceiling Examples.edge_down "hello" Examples.world0).
  intros k _. exists 503, (JsonObject None). split; [reflexivity|].
  right. lia.
Defined.

End EmbedderFacts.

(* --------------------------------------------------------------------- *)
(** ** Facts about database/supabase_client.py                            *)
(* --------------------------------------------------------------------- *)

Module SupabaseFacts.
Import Deduplicator SupabaseClient ListFacts WorldFacts.

Lemma elem_of_stored_fingerprints t u h :
  h ∈ stored_fingerprints t u ↔ (u, h) ∈ row_key <$> t.
Proof.
  unfold stored_fingerprints. rewrite elem_of_list_to_set, !list_elem_of_fmap.
  split.
  - intros (r & -> & [Hu Hr]%list_elem_of_filter). exists r. by rewrite <- Hu.
  - intros (r & [= -> ->] & Hr). exists r. split; [done|].
    by apply list_elem_of_filter.
Qed.

Lemma stored_fingerprints_cons r t u :
  stored_fingerprints (r :: t) u =
  if decide (row_url r = u) then {[row_content_hash r]} ∪ stored_fingerprints t u
  else stored_fingerprints t u.
Proof.
  unfold stored_fingerprints. rewrite filter_cons.
  destruct (decide (row_url r = u)); done.
Qed.

Lemma stored_fingerprints_absent t u :
  u ∉ row_url <$> t → stored_fingerprints t u = ∅.
Proof.
  intros Hnin. apply set_eq. intros h. rewrite elem_of_stored_fingerprints.
  split; [|set_solver]. intros (r & [= -> ->] & Hr)%list_elem_of_fmap.
  destruct Hnin. apply list_elem_of_fmap. eauto.
Qed.

Lemma setdefault_add_row_lookup m r u :
  setdefault_add_row m r !! u =
  if decide (row_url r = u)
  then Some (default ∅ (m !! u) ∪ {[row_content_hash r]}) else m !! u.
Proof.
  unfold setdefault_add_row. case_decide as E.
  - subst u. by rewrite lookup_insert_eq.
  - by rewrite lookup_insert_ne.
Qed.

Lemma hashes_of_rows_acc t (m : gmap string (gset string)) u :
  foldl setdefault_add_row m t !! u =
  if decide (u ∈ row_url <$> t)
  then Some (default ∅ (m !! u) ∪ stored_fingerprints t u)
  else m !! u.
Proof.
  revert m. induction t as [|r t IH]; intros m.
  - rewrite decide_False; [done | by intros ?%elem_of_nil].
  - cbn [foldl]. rewrite IH, setdefault_add_row_lookup, stored_fingerprints_cons.
    rewrite fmap_cons.
    destruct (decide (row_url r = u)) as [E|Hne].
    + rewrite (decide_True (P := u ∈ _ :: _)) by (rewrite <- E; left).
      cbn [default]. case_decide as E1; f_equal.
      * set_solver.
      * rewrite (stored_fingerprints_absent t u E1). set_solver.
    + case_decide as E1; case_decide as E2; try done.
      * destruct E2. by right.
      * apply elem_of_cons in E2 as [->|?]; done.
Qed.

(** What [get_existing_hashes] returns: one key per URL in the table, bound
    to the set of fingerprints stored for it. *)
Lemma hashes_of_rows_lookup t u :
  hashes_of_rows t !! u =
  if decide (u ∈ row_url <$> t) then Some (stored_fingerprints t u) else None.
Proof.
  unfold hashes_of_rows. rewrite hashes_of_rows_acc, lookup_empty. simpl.
  case_decide; [f_equal; set_solver | done].
Qed.

Lemma hashes_of_rows_default t u :
  default ∅ (hashes_of_rows t !! u) = stored_fingerprints t u.
Proof.
  rewrite hashes_of_rows_lookup. case_decide as E; [done|].
  by rewrite stored_fingerprints_absent.
Qed.

Lemma elem_of_dom_hashes_of_rows t u :
  u ∈ dom (hashes_of_rows t) ↔ u ∈ row_url <$> t.
Proof.
  rewrite elem_of_dom, hashes_of_rows_lookup.
  case_decide as E.
  - split; [done | eauto].
  - split; [by intros [? ?] | done].
Qed.

(** The cleanup loop: every row of every listed URL is gone, the other
    rows stay, one delete request per URL is logged. *)
Lemma delete_loop_spec (us : list string) w :
  for_each us delete_chunks_for_url w =
  (Ok tt, mkWorld (filter (fun r : Row => row_url r ∉ us) (table w))
                  (store_log w ++ (OpDelete <$> us))
                  (posts w) (slept w) (clock w)).
Proof.
  revert w. induction us as [|u us IH]; intros w.
  - cbn. rewrite app_nil_r. f_equal. destruct w; cbn. f_equal.
    symmetry. apply filter_all. intros r _. by intros ?%elem_of_nil.
  - cbn [for_each]. unfold bind.
    unfold delete_chunks_for_url at 1. rewrite IH. cbn. f_equal. f_equal.
    + rewrite list_filter_filter. apply list_filter_iff. intros r.
      rewrite not_elem_of_cons. tauto.
    + by rewrite <- app_assoc.
Qed.

Lemma insert_loop_spec (idxs : list nat) (f : nat → list Row) w :
  for_each idxs (fun i => insert_batch (f i)) w =
  (Ok tt, mkWorld (table w ++ concat (f <$> idxs))
                  (store_log w ++ ((fun i => OpInsert (f i)) <$> idxs))
                  (posts w) (slept w) (clock w)).
Proof.
  revert w. induction idxs as [|i idxs IH]; intros w.
  - cbn. rewrite !app_nil_r. by destruct w.
  - cbn [for_each]. unfold bind. unfold insert_batch at 1. rewrite IH. cbn.
    by rewrite <- !app_assoc.
Qed.

(** The batches of [upsert_chunks] cut the rows without loss or overlap. *)
Lemma slices_from {A} (rows : list A) (step fuel i : nat) :
  0 < step → length rows - i ≤ fuel →
  concat ((fun j => slice rows j (j + step)) <$> range_from fuel i (length rows) step)
  = drop i rows.
Proof.
  intros Hstep. revert i. induction fuel as [|fuel IH]; intros i Hfuel.
  - cbn. symmetry. apply drop_ge. lia.
  - cbn [range_from]. destruct (Nat.ltb_spec i (length rows)) as [Hlt|Hge].
    + rewrite fmap_cons. cbn [concat]. rewrite IH by lia.
      unfold slice. replace (i + step - i) with step by lia.
      rewrite <- drop_drop. apply take_drop.
    + cbn. symmetry. apply drop_ge. lia.
Qed.

Lemma slices_cover {A} (rows : list A) :
  concat ((fun j => slice rows j (j + BATCH_SIZE)) <$>
          py_range 0 (length rows) BATCH_SIZE) = rows.
Proof.
  unfold py_range. rewrite slices_from; [done | unfold BATCH_SIZE; lia | lia].
Qed.

(** [upsert_chunks] appends one row per (chunk, embedding) pair, in order,
    and sends insert requests only. *)
Lemma upsert_chunks_spec chunks embeddings w :
  ∃ ins,
    upsert_chunks chunks embeddings w =
    (Ok tt, mkWorld (table w ++ (make_row (clock w) <$> zip chunks embeddings))
                    (store_log w ++ ins) (posts w) (slept w) (S (clock w))) ∧
    Forall is_insert ins.
Proof.
  eexists. unfold upsert_chunks, mbind, M_bind, bind, utcnow.
  rewrite insert_loop_spec. cbn. rewrite slices_cover. split; [reflexivity|].
  apply Forall_fmap, Forall_true. done.
Qed.

End SupabaseFacts.

(* --------------------------------------------------------------------- *)
(** ** Facts about main.py                                                *)
(* --------------------------------------------------------------------- *)

Module MainFacts.
Import Deduplicator SupabaseClient Chunker Embedder Main.
Import ListFacts WorldFacts DeduplicatorFacts EmbedderFacts SupabaseFacts.

Lemma embed_all_frame `{EdgeFunction} texts w :
  same_store w (embed_all texts w).2.
Proof.
  revert w. induction texts as [|text rest IH]; intros w; [done|].
  cbn [embed_all]. unfold mbind, M_bind, bind.
  pose proof (embed_texts_frame [text] w) as H1.
  destruct (embed_texts [text] w) as [[emb|e] w1]; [|done].
  pose proof (IH w1) as H2.
  destruct (embed_all rest w1) as [[embs|e] w2]; cbn in *;
    by eapply same_store_trans.
Qed.

Lemma embed_all_length `{EdgeFunction} texts w embs w' :
  embed_all texts w = (Ok embs, w') → length embs = length texts.
Proof.
  revert w embs w'. induction texts as [|text rest IH]; intros w embs w'.
  - by intros [= <- _].
  - cbn [embed_all]. intros (emb & w1 & Hemb & Hk)%bind_inv.
    apply bind_inv in Hk as (embs' & w2 & Hrest & [= <- _]).
    apply embed_texts_length in Hemb. apply IH in Hrest.
    rewrite length_app, Hemb, Hrest. done.
Qed.

Lemma embed_all_ok `{EdgeFunction} texts w embs w' :
  embed_all texts w = (Ok embs, w') →
  length embs = length texts ∧ same_store w w'.
Proof.
  intros Hemb. split; [by eapply embed_all_length|].
  pose proof (embed_all_frame texts w) as Hframe. by rewrite Hemb in Hframe.
Qed.

Lemma insert_by_perm {A} (key : A → string) x l : insert_by key x l ≡ₚ x :: l.
Proof.
  induction l as [|y l IH]; [done|]. cbn.
  destruct (String.leb (key x) (key y)); [done|].
  rewrite IH. apply Permutation_swap.
Qed.

(** Sorting moves the pairs around and loses none. *)
Lemma sort_by_perm {A} (key : A → string) l : sort_by key l ≡ₚ l.
Proof.
  induction l as [|x l IH]; [done|].
  unfold sort_by in *. cbn. by rewrite insert_by_perm, IH.
Qed.

(** The groups of [groupby], laid end to end, are the list that was grouped. *)
Lemma groupby_concat {A} (key : A → string) l : concat (groupby key l).*2 = l.
Proof.
  induction l as [|x l IH]; [done|]. cbn [groupby].
  destruct (groupby key l) as [|[k g] gs]; cbn in *.
  - by rewrite <- IH.
  - case_decide; cbn; by rewrite <- IH.
Qed.

Lemma row_key_make_row now ce : row_key (make_row now ce) = chunk_key ce.1.
Proof. by destruct ce. Qed.

(** The upload loop: one row per pair of every group, insert requests only. *)
Lemma upsert_groups_spec (groups : list (string * list (HChunk * Vec))) w :
  ∃ added ins,
    for_each groups
      (fun '(_, group_list) => upsert_chunks (group_list.*1) (group_list.*2)) w =
    (Ok tt, mkWorld (table w ++ added) (store_log w ++ ins)
                    (posts w) (slept w) (clock w + length groups)) ∧
    row_key <$> added = chunk_key <$> (concat groups.*2).*1 ∧
    Forall is_insert ins.
Proof.
  revert w. induction groups as [|[k g] groups IH]; intros w.
  - exists [], []. cbn. rewrite !app_nil_r, Nat.add_0_r. by destruct w.
  - cbn [for_each]. unfold bind.
    destruct (upsert_chunks_spec (g.*1) (g.*2) w) as (ins1 & -> & Hins1).
    destruct (IH (mkWorld (table w ++ (make_row (clock w) <$> zip (g.*1) (g.*2)))
                          (store_log w ++ ins1) (posts w) (slept w) (S (clock w))))
      as (added2 & ins2 & -> & Hkeys & Hins2).
    exists ((make_row (clock w) <$> zip (g.*1) (g.*2)) ++ added2), (ins1 ++ ins2).
    cbn. split; [|split].
    + rewrite <- !app_assoc. do 3 f_equal. lia.
    + rewrite zip_fst_snd, !fmap_app, Hkeys. f_equal.
      rewrite <- !list_fmap_compose. apply list_fmap_ext.
      intros i ce _. apply row_key_make_row.
    + by apply Forall_app.
Qed.

(** What a successful [sync] did to the table and which requests it sent. *)
Lemma sync_spec `{Hashlib} `{EdgeFunction} n cs w s w' :
  sync n cs w = (Ok s, w') →
  let all_chunks := compute_hashes_for_chunks cs in
  let existing := hashes_of_rows (table w) in
  let changed := find_changed_urls all_chunks existing in
  let todo := urls_to_process_of all_chunks existing in
  (todo = ∅ ∧ s = UpToDate ∧ w' = log_op OpSelect w) ∨
  (todo ≠ ∅ ∧ ∃ added ins,
      table w' =
        filter (fun r : Row => row_url r ∉ elements changed) (table w) ++ added ∧
      row_key <$> added ≡ₚ
        chunk_key <$> filter (fun c : HChunk => url c ∈ todo) all_chunks ∧
      store_log w' =
        store_log w ++ OpSelect :: (OpDelete <$> elements changed) ++ ins ∧
      Forall is_insert ins).
Proof.
  intros Hrun. cbn zeta. unfold sync in Hrun.
  apply bind_inv in Hrun as (e' & w1 & Hget & Hrun).
  unfold get_existing_hashes in Hget. injection Hget as <- <-.
  case_decide as Htodo.
  { left. by injection Hrun as <- <-. }
  right. split; [done|].
  apply bind_inv in Hrun as ([] & w2 & Hdel & Hrun).
  rewrite delete_loop_spec in Hdel. injection Hdel as <-.
  apply bind_inv in Hrun as (embs & w3 & Hemb & Hrun).
  apply embed_all_ok in Hemb as (Hlen & Ht & Hl & Hc). cbn in Ht, Hl, Hc.
  apply bind_inv in Hrun as ([] & w4 & Hup & Hret).
  match type of Hup with
  | for_each ?groups _ _ = _ =>
      destruct (upsert_groups_spec groups w3) as (added & ins & Heq & Hkeys & Hins)
  end.
  rewrite Heq in Hup. injection Hup as <-. injection Hret as _ <-.
  exists added, ins. cbn. rewrite Ht, Hl. split; [done|]. split; [|split; [|done]].
  - rewrite Hkeys, groupby_concat, sort_by_perm, fst_zip; [done|].
    rewrite Hlen, length_fmap. done.
  - by rewrite <- !app_assoc.
Qed.

(** After a successful [sync], the table holds for a processed URL exactly
    the fresh fingerprints, and for any other URL what it held before. *)
Lemma sync_stored `{Hashlib} `{EdgeFunction} n cs w s w' u :
  sync n cs w = (Ok s, w') →
  stored_fingerprints (table w') u =
  if decide (u ∈ urls_to_process_of (compute_hashes_for_chunks cs)
                                    (hashes_of_rows (table w)))
  then fresh_fingerprints (compute_hashes_for_chunks cs) u
  else stored_fingerprints (table w) u.
Proof.
  intros Hrun. apply sync_spec in Hrun. cbn zeta in Hrun.
  destruct Hrun as [(Hempty & _ & ->)|(_ & added & ins & Htab & Hperm & _)].
  { rewrite Hempty, decide_False by set_solver. done. }
  apply set_eq. intros h.
  rewrite elem_of_stored_fingerprints, Htab, fmap_app, elem_of_app, Hperm.
  rewrite !list_elem_of_fmap.
  case_decide as Hu.
  - rewrite elem_of_fresh_fingerprints, list_elem_of_fmap. split.
    + intros [(r & [= -> ->] & [Hkeep Hr]%list_elem_of_filter)
             |(c & Hc & [_ Hin]%list_elem_of_filter)]; [|eauto].
      exfalso. unfold urls_to_process_of in Hu.
      apply elem_of_union in Hu as [Hch|Hnew].
      * apply Hkeep. by apply elem_of_elements.
      * unfold new_urls_of in Hnew. apply elem_of_difference in Hnew as [_ Hdom].
        apply Hdom, elem_of_dom_hashes_of_rows, list_elem_of_fmap. eauto.
    + intros (c & Hc & Hin). right. exists c. split; [done|].
      apply list_elem_of_filter. split; [|done].
      injection Hc as Hc _. by rewrite <- Hc.
  - rewrite elem_of_stored_fingerprints, list_elem_of_fmap. split.
    + intros [(r & Hr & [_ Hin]%list_elem_of_filter)
             |(c & [= -> ->] & [Hin _]%list_elem_of_filter)]; [eauto | done].
    + intros (r & [= -> ->] & Hin). left. exists r. split; [done|].
      apply list_elem_of_filter. split; [|done].
      intros Hch%elem_of_elements. apply Hu. unfold urls_to_process_of. set_solver.
Qed.

Lemma changed_subset_urls (all_chunks : list HChunk) existing u :
  u ∈ find_changed_urls all_chunks existing →
  u ∈ (fun c : HChunk => url c) <$> all_chunks.
Proof. by intros [? _]%elem_of_find_changed_urls. Qed.

Lemma todo_subset_urls (all_chunks : list HChunk) existing u :
  u ∈ urls_to_process_of all_chunks existing →
  u ∈ (fun c : HChunk => url c) <$> all_chunks.
Proof.
  unfold urls_to_process_of, new_urls_of.
  intros [?%changed_subset_urls|[?%elem_of_list_to_set _]%elem_of_difference]%elem_of_union;
    done.
Qed.

(** A successful run either found no document, or is a successful [sync]
    of the fresh chunks. *)
Lemma run_pipeline_inv `{Hashlib} `{EdgeFunction} `{Collaborators}
    cfg pages pdfs w s w' :
  run_pipeline cfg (Ok (pages, pdfs)) w = (Ok s, w') →
  (extract_documents pages pdfs = [] ∧ s = NothingToDo ∧ w' = w) ∨
  sync (length (extract_documents pages pdfs))
       (chunk_documents (extract_documents pages pdfs)) w = (Ok s, w').
Proof.
  unfold run_pipeline. destruct (Config.validate cfg); [|done].
  destruct (extract_documents pages pdfs) as [|d ds] eqn:E.
  - intros [= <- <-]. by left.
  - intros Hrun. by right.
Qed.

(** C2. After a successful run, the table holds for every URL of the
    processing set exactly the fingerprints of that URL's fresh chunks; the
    requests of the run are reads, then the deletes (one for every changed
    URL), then the inserts: no insert comes before a delete. *)
Theorem run_pipeline_replaces `{Hashlib} `{EdgeFunction} `{Collaborators}
    (cfg : Config.config) (pages pdfs : gset string) (w w' : world) (s : Summary) :
  run_pipeline cfg (Ok (pages, pdfs)) w = (Ok s, w') →
  let all_chunks := fresh_chunks pages pdfs in
  let existing := hashes_of_rows (table w) in
  (∀ u, u ∈ urls_to_process_of all_chunks existing →
        stored_fingerprints (table w') u = fresh_fingerprints all_chunks u) ∧
  ∃ reads deletes inserts,
    store_log w' = store_log w ++ reads ++ deletes ++ inserts ∧
    Forall (fun op => op = OpSelect) reads ∧
    Forall is_delete deletes ∧
    Forall is_insert inserts ∧
    ∀ u, u ∈ find_changed_urls all_chunks existing → OpDelete u ∈ deletes.
Proof.
  intros Hrun. cbn zeta. unfold fresh_chunks.
  apply run_pipeline_inv in Hrun as [(Hdocs & -> & ->)|Hsync].
  - rewrite Hdocs. split.
    + intros u Hu%todo_subset_urls. by apply elem_of_nil in Hu.
    + exists [], [], []. rewrite !app_nil_r. split_and!; try done.
      all: intros u Hu%changed_subset_urls; by apply elem_of_nil in Hu.
  - split.
    + intros u Hu. rewrite (sync_stored _ _ _ _ _ u Hsync).
      by rewrite decide_True.
    + apply sync_spec in Hsync. cbn zeta in Hsync.
      destruct Hsync as [(Hempty & _ & ->)|(_ & added & ins & _ & _ & Hlog & Hins)].
      * exists [OpSelect], [], []. cbn. split_and!; try done; [by repeat constructor|].
        intros u Hu. unfold urls_to_process_of in Hempty. set_solver.
      * exists [OpSelect], (OpDelete <$>
                  elements (find_changed_urls
                    (compute_hashes_for_chunks
                       (chunk_documents (extract_documents pages pdfs)))
                    (hashes_of_rows (table w)))), ins.
        split_and!; try done; [by repeat constructor | |].
        -- apply Forall_fmap, Forall_true. done.
        -- intros u Hu. apply list_elem_of_fmap. exists u.
           split; [done | by apply elem_of_elements].
Qed.

Lemma run_pipeline_replaces_witness :
  (∀ u, u ∈ urls_to_process_of
              (@fresh_chunks Examples.toy_hashlib Examples.site_v2 Examples.pages_ab ∅)
              (hashes_of_rows (table Examples.run1.2)) →
        stored_fingerprints (table Examples.run2.2) u =
        fresh_fingerprints
          (@fresh_chunks Examples.toy_hashlib Examples.site_v2 Examples.pages_ab ∅) u) ∧
  "A" ∈ urls_to_process_of
          (@fresh_chunks Examples.toy_hashlib Examples.site_v2 Examples.pages_ab ∅)
          (hashes_of_rows (table Examples.run1.2)).
Proof.
  split; [|vm_compute; reflexivity].
  apply (@run_pipeline_replaces Examples.toy_hashlib Examples.edge_up Examples.site_v2
           Examples.cfg0 Examples.pages_ab ∅ Examples.run1.2 Examples.run2.2
           (Complete 2 1 0 1)).
  vm_compute. reflexivity.
Defined.

(** C3 as the specification states it fails: with an empty prior map, the
    URL of the only fresh chunk is new and is also in the changed set. *)
Lemma new_url_never_changed_counterexample :
  ¬ (∀ (all_chunks : list HChunk) (existing : gmap string (gset string)) u,
       u ∈ (fun c : HChunk => url c) <$> all_chunks →
       existing !! u = None →
       u ∈ new_urls_of all_chunks existing ∧
       u ∉ find_changed_urls all_chunks existing).
Proof.
  intros Hclaim.
  destruct (Hclaim [Examples.chunk_b] ∅ "B") as [_ Hnot].
  - vm_compute. left.
  - reflexivity.
  - apply Hnot. vm_compute. reflexivity.
Qed.

(** C3, amended. A fresh URL that has no entry in the prior map is in the
    coordinator's new set, and it is in the changed set of
    [find_changed_urls] too: its fresh fingerprint set is not empty, the
    prior set taken for it is. *)
Theorem new_url_is_new_and_changed (all_chunks : list HChunk)
    (existing : gmap string (gset string)) (u : string) :
  u ∈ (fun c : HChunk => url c) <$> all_chunks →
  existing !! u = None →
  u ∈ new_urls_of all_chunks existing ∧
  u ∈ find_changed_urls all_chunks existing.
Proof.
  intros Hu Hnone. split.
  - unfold new_urls_of. apply elem_of_difference. split.
    + by apply elem_of_list_to_set.
    + by apply not_elem_of_dom.
  - apply elem_of_find_changed_urls. split; [done|].
    rewrite Hnone. by apply fresh_fingerprints_nonempty.
Qed.

Lemma new_url_is_new_and_changed_witness :
  "B" ∈ new_urls_of [Examples.chunk_b] ∅ ∧
  "B" ∈ find_changed_urls [Examples.chunk_b] ∅.
Proof.
  apply (new_url_is_new_and_changed [Examples.chunk_b] ∅ "B").
  - vm_compute. left.
  - reflexivity.
Defined.

(** When every fresh URL has in the table exactly its fresh fingerprints,
    nothing is to be processed. *)
Lemma todo_empty (all_chunks : list HChunk) (t : list Row) :
  (∀ u, u ∈ (fun c : HChunk => url c) <$> all_chunks →
        fresh_fingerprints all_chunks u = stored_fingerprints t u) →
  urls_to_process_of all_chunks (hashes_of_rows t) = ∅.
Proof.
  intros Hsame. apply set_eq. intros u. split; [|set_solver].
  unfold urls_to_process_of, new_urls_of.
  intros [Hch|[Hu%elem_of_list_to_set Hdom]%elem_of_difference]%elem_of_union.
  - apply elem_of_find_changed_urls in Hch as [Hu Hne].
    rewrite hashes_of_rows_default in Hne. destruct Hne. by apply Hsame.
  - exfalso. apply (fresh_fingerprints_nonempty all_chunks u Hu).
    rewrite (Hsame u Hu). apply stored_fingerprints_absent.
    by rewrite <- elem_of_dom_hashes_of_rows.
Qed.

(** With nothing to process, a run only reads the table. *)
Lemma run_pipeline_idle `{Hashlib} `{EdgeFunction} `{Collaborators}
    cfg pages pdfs w :
  Config.validate cfg = Ok tt →
  urls_to_process_of (fresh_chunks pages pdfs) (hashes_of_rows (table w)) = ∅ →
  run_pipeline cfg (Ok (pages, pdfs)) w = (Ok NothingToDo, w) ∨
  run_pipeline cfg (Ok (pages, pdfs)) w = (Ok UpToDate, log_op OpSelect w).
Proof.
  intros Hcfg Hempty. unfold run_pipeline. rewrite Hcfg.
  unfold fresh_chunks in Hempty.
  destruct (extract_documents pages pdfs) as [|d ds]; [by left|].
  right. unfold sync, mbind, M_bind, bind, get_existing_hashes.
  cbn [table log_op]. by rewrite decide_True.
Qed.

(** C4. When the table already holds, for every fresh URL, exactly the
    fingerprints of its fresh chunks, the run computes an empty processing
    set, succeeds, leaves the table as it is, sends no delete and no insert
    request (at most the one read), and makes no embedding call. *)
Theorem run_pipeline_noop `{Hashlib} `{EdgeFunction} `{Collaborators}
    (cfg : Config.config) (pages pdfs : gset string) (w : world) :
  Config.validate cfg = Ok tt →
  (∀ u, u ∈ (fun c : HChunk => url c) <$> fresh_chunks pages pdfs →
        fresh_fingerprints (fresh_chunks pages pdfs) u =
        stored_fingerprints (table w) u) →
  urls_to_process_of (fresh_chunks pages pdfs) (hashes_of_rows (table w)) = ∅ ∧
  ∃ s w' ops,
    run_pipeline cfg (Ok (pages, pdfs)) w = (Ok s, w') ∧
    table w' = table w ∧
    posts w' = posts w ∧
    store_log w' = store_log w ++ ops ∧
    Forall (fun op => ¬ is_delete op ∧ ¬ is_insert op) ops.
Proof.
  intros Hcfg Hsame. pose proof (todo_empty _ _ Hsame) as Hempty.
  split; [done|].
  destruct (run_pipeline_idle cfg pages pdfs w Hcfg Hempty) as [->| ->].
  - exists NothingToDo, w, []. rewrite app_nil_r. by split_and!.
  - exists UpToDate, (log_op OpSelect w), [OpSelect]. split_and!; try done.
    repeat constructor; by intros [].
Qed.

Lemma run_pipeline_noop_witness :
  urls_to_process_of
    (@fresh_chunks Examples.toy_hashlib Examples.site_v2 Examples.pages_ab ∅)
    (hashes_of_rows (table Examples.run2.2)) = ∅ ∧
  ∃ s w' ops,
    @run_pipeline Examples.toy_hashlib Examples.edge_up Examples.site_v2
      Examples.cfg0 (Ok (Examples.pages_ab, ∅)) Examples.run2.2 = (Ok s, w') ∧
    table w' = table Examples.run2.2 ∧
    posts w' = posts Examples.run2.2 ∧
    store_log w' = store_log Examples.run2.2 ++ ops ∧
    Forall (fun op => ¬ is_delete op ∧ ¬ is_insert op) ops.
Proof.
  apply (@run_pipeline_noop Examples.toy_hashlib Examples.edge_up Examples.site_v2
           Examples.cfg0 Examples.pages_ab ∅ Examples.run2.2).
  - reflexivity.
  - intros u Hu.
    assert (u = "A" ∨ u = "B") as [-> | ->].
    { vm_compute in Hu. set_solver. }
    + vm_compute. reflexivity.
    + vm_compute. reflexivity.
Defined.

(** Two runs in a row on unchanged content: after a successful run, every
    fresh URL has in the table exactly its fresh fingerprints, so the next
    run over the same content is idle. *)
Lemma run_pipeline_settles `{Hashlib} `{EdgeFunction} `{Collaborators}
    cfg pages pdfs w s w' :
  run_pipeline cfg (Ok (pages, pdfs)) w = (Ok s, w') →
  ∀ u, u ∈ (fun c : HChunk => url c) <$> fresh_chunks pages pdfs →
       fresh_fingerprints (fresh_chunks pages pdfs) u =
       stored_fingerprints (table w') u.
Proof.
  intros Hrun u Hu. unfold fresh_chunks in *.
  apply run_pipeline_inv in Hrun as [(Hdocs & _ & _)|Hsync].
  { rewrite Hdocs in Hu. by apply elem_of_nil in Hu. }
  rewrite (sync_stored _ _ _ _ _ u Hsync). case_decide as Htodo; [done|].
  rewrite <- hashes_of_rows_default.
  destruct (decide (fresh_fingerprints
              (compute_hashes_for_chunks
                 (chunk_documents (extract_documents pages pdfs))) u =
            default ∅ (hashes_of_rows (table w) !! u))) as [E|Hne]; [done|].
  destruct Htodo. unfold urls_to_process_of. apply elem_of_union. left.
  by apply elem_of_find_changed_urls.
Qed.

Lemma second_run_idle `{Hashlib} `{EdgeFunction} `{Collaborators}
    cfg pages pdfs w s w' :
  run_pipeline cfg (Ok (pages, pdfs)) w = (Ok s, w') →
  run_pipeline cfg (Ok (pages, pdfs)) w' = (Ok NothingToDo, w') ∨
  run_pipeline cfg (Ok (pages, pdfs)) w' = (Ok UpToDate, log_op OpSelect w').
Proof.
  intros Hrun. apply run_pipeline_idle.
  - unfold run_pipeline in Hrun. by destruct (Config.validate cfg) as [[]|].
  - apply todo_empty. by eapply run_pipeline_settles.
Qed.

End MainFacts.

(* --------------------------------------------------------------------- *)
(** ** Facts about crawler/spider.py                                      *)
(* --------------------------------------------------------------------- *)

Module SpiderFacts.
Import PyStr Config Spider.

Lemma sorted_by_suffix_disjoint pages pdfs :
  sorted_by_suffix pages pdfs → pages ## pdfs.
Proof. intros [Hpdf Hpage] u Hu1 Hu2. by apply (Hpage u Hu1), Hpdf. Qed.

Lemma classify_pdf `{Urllib} e u : classify e = PdfEntry u → is_pdf u.
Proof.
  unfold classify, is_pdf. destruct e as [|[text|]]; try done.
  repeat case_bool_decide; try done.
  destruct (endswith (lower (strip text)) ".pdf") eqn:E; by intros [= <-].
Qed.

Lemma classify_page `{Urllib} e u : classify e = PageEntry u → ¬ is_pdf u.
Proof.
  unfold classify, is_pdf. destruct e as [|[text|]]; try done.
  repeat case_bool_decide; try done.
  destruct (endswith (lower (strip text)) ".pdf") eqn:E; [done|].
  intros [= <-]. by rewrite E.
Qed.

Lemma sitemap_step_sorted `{Urllib} cfg pages pdfs e :
  sorted_by_suffix pages pdfs →
  sorted_by_suffix (sitemap_step cfg (pages, pdfs) e).1
                   (sitemap_step cfg (pages, pdfs) e).2.
Proof.
  intros [Hpdf Hpage]. unfold sitemap_step.
  destruct (classify e) as [|u|u] eqn:E; [done| |].
  - destruct (size pdfs <? MAX_PDFS cfg); [|done]. split; [|done]. cbn.
    intros v [Hv| ->%elem_of_singleton]%elem_of_union; [by apply Hpdf|].
    by eapply classify_pdf.
  - destruct (size pages <? MAX_PAGES cfg); [|done]. split; [done|]. cbn.
    intros v [Hv| ->%elem_of_singleton]%elem_of_union; [by apply Hpage|].
    by eapply classify_page.
Qed.

Lemma sitemap_loop_sorted `{Urllib} cfg url_elems acc :
  sorted_by_suffix acc.1 acc.2 →
  sorted_by_suffix (foldl (sitemap_step cfg) acc url_elems).1
                   (foldl (sitemap_step cfg) acc url_elems).2.
Proof.
  revert acc. induction url_elems as [|e es IH]; intros [pages pdfs] Hacc; [done|].
  cbn [foldl]. apply IH. by apply sitemap_step_sorted.
Qed.

Lemma bfs_step_sorted `{Urllib} `{Web} cfg base_domain st st' :
  bfs_step cfg base_domain st = Some st' →
  sorted_by_suffix (page_urls st) (pdf_urls st) →
  sorted_by_suffix (page_urls st') (pdf_urls st').
Proof.
  intros Hstep [Hpdf Hpage]. unfold bfs_step in Hstep.
  destruct (queue st) as [|url0 queue']; [done|].
  destruct (_ && _); [done|].
  destruct (negb (startswith _ "http")); [by injection Hstep as <-|].
  case_bool_decide; [by injection Hstep as <-|].
  destruct (negb (bool_decide _)); [by injection Hstep as <-|].
  destruct (endswith (lower _) ".pdf") eqn:Epdf.
  - destruct (size (pdf_urls st) <? MAX_PDFS cfg); injection Hstep as <-; [|done].
    split; [|done]. cbn.
    intros v [Hv| ->%elem_of_singleton]%elem_of_union; [by apply Hpdf | done].
  - destruct (MAX_PAGES cfg <=? size (page_urls st)); [by injection Hstep as <-|].
    destruct (session_get _) as [|content_type status_code hrefs];
      [by injection Hstep as <-|].
    destruct (negb (contains _ _)); [by injection Hstep as <-|].
    destruct (_ && _)%Z; injection Hstep as <-; [done|].
    split; [done|]. cbn.
    intros v [Hv| ->%elem_of_singleton]%elem_of_union; [by apply Hpage|].
    unfold is_pdf. by rewrite Epdf.
Qed.

Lemma bfs_loop_sorted `{Urllib} `{Web} cfg base_domain fuel st st' :
  bfs_loop cfg base_domain fuel st = Some st' →
  sorted_by_suffix (page_urls st) (pdf_urls st) →
  sorted_by_suffix (page_urls st') (pdf_urls st').
Proof.
  revert st. induction fuel as [|fuel IH]; intros st; [done|].
  cbn [bfs_loop]. destruct (bfs_step cfg base_domain st) as [st1|] eqn:Estep.
  - intros Hloop Hst. apply (IH st1 Hloop). by eapply bfs_step_sorted.
  - by intros [= <-].
Qed.

(** C10. Whatever [crawl] returns, by the sitemap or by the breadth-first
    crawl: every URL of the PDF set ends with ".pdf" (case-insensitively),
    no URL of the page set does, and the two sets are disjoint. *)
Theorem crawl_sets_disjoint `{Urllib} `{XmlParser} `{Web} (cfg : config)
    (sitemap_file seed_url : option string) (fuel : nat)
    (pages pdfs : gset string) (log : list string) :
  crawl cfg sitemap_file seed_url fuel = Some (Ok (pages, pdfs), log) →
  (∀ u, u ∈ pdfs → is_pdf u) ∧ (∀ u, u ∈ pages → ¬ is_pdf u) ∧ pages ## pdfs.
Proof.
  intros Hcrawl.
  assert (sorted_by_suffix pages pdfs) as Hsorted.
  { unfold crawl in Hcrawl. destruct sitemap_file as [sitemap|].
    - unfold _load_sitemap in Hcrawl.
      destruct (et_parse sitemap) as [url_elems|e]; [|done].
      injection Hcrawl as Hfold _.
      pose proof (sitemap_loop_sorted cfg url_elems (∅, ∅)) as Hs.
      rewrite Hfold in Hs. apply Hs. split; set_solver.
    - unfold _bfs_crawl in Hcrawl.
      destruct (bfs_loop _ _ _ _) as [st'|] eqn:Eloop; [|done].
      injection Hcrawl as <- <- _.
      eapply bfs_loop_sorted; [done|]. split; set_solver. }
  destruct Hsorted as [Hpdf Hpage]. split_and!; [done..|].
  by apply sorted_by_suffix_disjoint.
Qed.

Lemma crawl_sets_disjoint_witness :
  (∀ u, u ∈ Examples.small_result.2 → is_pdf u) ∧
  (∀ u, u ∈ Examples.small_result.1 → ¬ is_pdf u) ∧
  Examples.small_result.1 ## Examples.small_result.2.
Proof.
  apply (@crawl_sets_disjoint Examples.toy_urllib Examples.toy_xml Examples.small_web
           Examples.cfg_example None None 20
           Examples.small_result.1 Examples.small_result.2 Examples.small_log).
  vm_compute. reflexivity.
Defined.








(** C7. When sitemap.xml exists and the XML parser rejects it, [crawl]
    ends with the parser's ParseError, whatever the seed, the web and the
    fuel are, and fetches nothing: the breadth-first crawl is not tried. The
    error ends the run, with the world as it was. *)
Theorem sitemap_parse_error_is_fatal
    `{Deduplicator.Hashlib} `{EdgeFunction} `{Chunker.Collaborators}
    `{Urllib} `{XmlParser} `{Web}
    (cfg : config) (sitemap : string) (seed_url : option string) (fuel : nat)
    (w : world) :
  et_parse sitemap = Raise ParseError →
  crawl cfg (Some sitemap) seed_url fuel = Some (Raise ParseError, []) ∧
  (Config.validate cfg = Ok tt →
   Main.main cfg (Some sitemap) fuel w = Some (Raise ParseError, w)).
Proof.
  intros Hparse. unfold Main.main, Main.run_pipeline, crawl, _load_sitemap.
  rewrite Hparse. split; [done|]. intros Hcfg. by rewrite Hcfg.
Qed.

Lemma sitemap_parse_error_is_fatal_witness :
  @crawl Examples.toy_urllib Examples.toy_xml Examples.small_web
    Examples.cfg_example (Some "<urlset") None 0 = Some (Raise ParseError, []) ∧
  (Config.validate Examples.cfg_example = Ok tt →
   @Main.main Examples.toy_hashlib Examples.edge_up Examples.site_v1
     Examples.toy_urllib Examples.toy_xml Examples.small_web
     Examples.cfg_example (Some "<urlset") 0 Examples.world0 =
   Some (Raise ParseError, Examples.world0)).
Proof.
  apply (@sitemap_parse_error_is_fatal Examples.toy_hashlib Examples.edge_up
           Examples.site_v1 Examples.toy_urllib Examples.toy_xml Examples.small_web
           Examples.cfg_example "<urlset" None 0 Examples.world0).
  reflexivity.
Defined.

(** What the domain test of the breadth-first crawl does guarantee: every
    admitted address has the base domain of the seed. *)
Lemma bfs_step_in_scope `{Urllib} `{Web} cfg base_domain st st' :
  bfs_step cfg base_domain st = Some st' →
  in_scope base_domain st → in_scope base_domain st'.
Proof.
  intros Hstep Hst. unfold bfs_step in Hstep.
  destruct (queue st) as [|url0 queue']; [done|].
  destruct (_ && _); [done|].
  destruct (negb (startswith _ "http")); [by injection Hstep as <-|].
  case_bool_decide; [by injection Hstep as <-|].
  case_bool_decide as Edom; cbn [negb] in Hstep; [|by injection Hstep as <-].
  destruct (endswith (lower _) ".pdf").
  - destruct (size (pdf_urls st) <? MAX_PDFS cfg); injection Hstep as <-; [|done].
    intros v. cbn. rewrite (assoc_L (∪)), elem_of_union, elem_of_singleton.
    intros [Hv| ->]; [by apply Hst | done].
  - destruct (MAX_PAGES cfg <=? size (page_urls st)); [by injection Hstep as <-|].
    destruct (session_get _) as [|content_type status_code hrefs];
      [by injection Hstep as <-|].
    destruct (negb (contains _ _)); [by injection Hstep as <-|].
    destruct (_ && _)%Z; injection Hstep as <-; [done|].
    intros v. cbn. rewrite !elem_of_union, elem_of_singleton.
    intros [[Hv| ->]|Hv]; [apply Hst; set_solver | done | apply Hst; set_solver].
Qed.

Lemma bfs_loop_in_scope `{Urllib} `{Web} cfg base_domain fuel st st' :
  bfs_loop cfg base_domain fuel st = Some st' →
  in_scope base_domain st → in_scope base_domain st'.
Proof.
  revert st. induction fuel as [|fuel IH]; intros st; [done|].
  cbn [bfs_loop]. destruct (bfs_step cfg base_domain st) as [st1|] eqn:Estep.
  - intros Hloop Hst. apply (IH st1 Hloop). by eapply bfs_step_in_scope.
  - by intros [= <-].
Qed.

(** The breadth-first crawl ends: every step either shortens the queue or
    admits a page that was not visited before, and pages are capped. *)
Lemma bfs_step_progress `{Urllib} `{Web} cfg base_domain st st' :
  bfs_step cfg base_domain st = Some st' →
  page_urls st ⊆ visited st →
  page_urls st' ⊆ visited st' ∧
  ((page_urls st' = page_urls st ∧ S (length (queue st')) = length (queue st)) ∨
   (size (page_urls st) < MAX_PAGES cfg ∧
    size (page_urls st') = S (size (page_urls st)))).
Proof.
  intros Hstep Hsub. unfold bfs_step in Hstep.
  destruct (queue st) as [|url0 queue']; [done|].
  destruct (_ && _); [done|].
  destruct (negb (startswith _ "http")); [injection Hstep as <-; cbn; auto|].
  case_bool_decide as Hvis; [injection Hstep as <-; cbn; auto|].
  assert (page_urls st ⊆ visited st ∪ {[rstrip_slash (before_hash url0)]}) as Hsub'
    by set_solver.
  destruct (negb (bool_decide _)); [injection Hstep as <-; cbn; auto|].
  destruct (endswith (lower _) ".pdf").
  - destruct (size (pdf_urls st) <? MAX_PDFS cfg); injection Hstep as <-; cbn; auto.
  - destruct (Nat.leb_spec (MAX_PAGES cfg) (size (page_urls st))) as [Hfull|Hroom];
      [injection Hstep as <-; cbn; auto|].
    destruct (session_get _) as [|content_type status_code hrefs];
      [injection Hstep as <-; cbn; auto|].
    destruct (negb (contains _ _)); [injection Hstep as <-; cbn; auto|].
    destruct (_ && _)%Z; injection Hstep as <-; cbn; [auto|].
    split; [set_solver|]. right. split; [done|].
    rewrite size_union by set_solver. rewrite size_singleton. lia.
Qed.

Lemma bfs_loop_terminates_from `{Urllib} `{Web} cfg base_domain (room len : nat) st :
  MAX_PAGES cfg - size (page_urls st) ≤ room →
  length (queue st) ≤ len →
  page_urls st ⊆ visited st →
  ∃ fuel st', bfs_loop cfg base_domain fuel st = Some st'.
Proof.
  revert len st. induction room as [|room IHroom]; intros len;
    induction len as [|len IHlen]; intros st Hroom Hlen Hsub.
  all: destruct (bfs_step cfg base_domain st) as [st1|] eqn:Estep;
    [|exists 1, st; cbn; by rewrite Estep].
  all: destruct (bfs_step_progress _ _ _ _ Estep Hsub)
    as [Hsub1 [[Hsame Hq]|[Hlt Hgrow]]]; try lia.
  - destruct (IHlen st1) as (fuel & st' & Hloop); [rewrite Hsame; lia | lia | done |].
    exists (S fuel), st'. cbn. by rewrite Estep.
  - destruct (IHroom (length (queue st1)) st1) as (fuel & st' & Hloop);
      [lia | lia | done |].
    exists (S fuel), st'. cbn. by rewrite Estep.
  - destruct (IHlen st1) as (fuel & st' & Hloop); [rewrite Hsame; lia | lia | done |].
    exists (S fuel), st'. cbn. by rewrite Estep.
  - destruct (IHroom (length (queue st1)) st1) as (fuel & st' & Hloop);
      [lia | lia | done |].
    exists (S fuel), st'. cbn. by rewrite Estep.
Qed.

(** With enough fuel, [crawl] returns. *)
Lemma crawl_returns `{Urllib} `{XmlParser} `{Web} cfg sitemap_file seed_url :
  ∃ fuel r, crawl cfg sitemap_file seed_url fuel = Some r.
Proof.
  destruct sitemap_file as [sitemap|]; [by exists 0, (_load_sitemap cfg sitemap, [])|].
  unfold crawl, _bfs_crawl.
  destruct (bfs_loop_terminates_from cfg
              (_get_base_domain (urlparse_netloc (seed_of cfg seed_url)))
              (MAX_PAGES cfg) 1 (bfs_init (seed_of cfg seed_url)))
    as (fuel & st' & Hloop); [cbn; lia | cbn; lia | set_solver |].
  exists fuel. rewrite Hloop. cbn. eauto.
Qed.

(** [_get_base_domain] removes "www." wherever it occurs, not only in front:
    the authority exwww.ample.org gets the base domain of example.org. *)
Lemma get_base_domain_inner_www :
  _get_base_domain "exwww.ample.org" = "example.org" ∧
  _get_base_domain "www.example.org" = "example.org" ∧
  _get_base_domain "example.org" = "example.org" ∧
  _get_base_domain "other.org" = "other.org".
Proof. by vm_compute. Qed.

(** C5, the code at the failing input. A crawl seeded at
    https://example.org/, whose front page links to
    https://exwww.ample.org/leak.pdf, puts that address of another
    authority into the PDF set; the www. name of the seed's host is
    admitted and other.org is not. *)
Theorem bfs_crawl_admits_foreign_authority :
  ∃ pages pdfs log,
    @crawl Examples.toy_urllib Examples.toy_xml Examples.small_web
      Examples.cfg_example None None 20 = Some (Ok (pages, pdfs), log) ∧
    "https://exwww.ample.org/leak.pdf" ∈ pdfs ∧
    urlparse_netloc (Urllib := Examples.toy_urllib) "https://exwww.ample.org/leak.pdf"
      = "exwww.ample.org" ∧
    "https://www.example.org/x" ∈ pages ∧
    "https://other.org/anything" ∉ pages ∪ pdfs.
Proof.
  exists Examples.small_result.1, Examples.small_result.2, Examples.small_log.
  split_and!.
  - vm_compute. reflexivity.
  - vm_compute. reflexivity.
  - reflexivity.
  - vm_compute. reflexivity.
  - apply (bool_decide_unpack _). vm_compute. exact I.
Qed.

End SpiderFacts.

(* --------------------------------------------------------------------- *)
(** ** More about processor/embedder.py                                   *)
(* --------------------------------------------------------------------- *)

Module EmbedderMore.
Import Embedder EmbedderFacts.
Local Open Scope Z_scope.

(** Whatever the Edge Function answers, the loop makes at most one POST per
    remaining attempt and sleeps only the waits of attempts it made, in
    order. *)
Lemma call_embed_loop_budget `{EdgeFunction} text retries attempts w :
  ∃ k j : nat,
    (j ≤ k ≤ length attempts)%nat ∧
    posts (call_embed_loop text retries attempts w).2 = (posts w + k)%nat ∧
    slept (call_embed_loop text retries attempts w).2 =
      slept w ++ (backoff <$> take j attempts).
Proof.
  revert w. induction attempts as [|attempt rest IH]; intros w.
  { exists 0%nat, 0%nat. cbn. rewrite Nat.add_0_r, app_nil_r. split_and!; done. }
  cbn [call_embed_loop].
  unfold mbind, M_bind, bind, try_except_request, requests_post.
  pose (w1 := mkWorld (table w) (store_log w) (S (posts w)) (slept w) (clock w)).
  pose (w2 := mkWorld (table w) (store_log w) (S (posts w))
                      (slept w ++ [backoff attempt]) (clock w)).
  assert (∃ k j : nat, (j ≤ k ≤ length (attempt :: rest))%nat ∧
            posts w1 = (posts w + k)%nat ∧
            slept w1 = slept w ++ (backoff <$> take j (attempt :: rest))) as Hstop.
  { exists 1%nat, 0%nat. cbn. rewrite app_nil_r. split_and!; lia || done. }
  assert (∃ k j : nat, (j ≤ k ≤ length (attempt :: rest))%nat ∧
            posts (call_embed_loop text retries rest w2).2 = (posts w + k)%nat ∧
            slept (call_embed_loop text retries rest w2).2 =
              slept w ++ (backoff <$> take j (attempt :: rest))) as Hgo.
  { destruct (IH w2) as (k & j & Hkj & Hp & Hs).
    exists (S k), (S j). cbn [length take fmap list_fmap].
    rewrite Hp, Hs. cbn. rewrite <- app_assoc. split_and!; lia || done. }
  destruct (edge_answer (posts w) text) as [status_code body|d]; cbn.
  - destruct ((status_code =? 546) || (500 <=? status_code)); cbn; [exact Hgo|].
    unfold raise_for_status.
    destruct ((400 <=? status_code) && (status_code <? 600)); cbn.
    + destruct (Z.of_nat attempt <? Z.of_nat retries - 1); cbn;
        [exact Hgo | exact Hstop].
    + destruct body as [[v|]|]; cbn; try exact Hstop.
      destruct (Z.of_nat attempt <? Z.of_nat retries - 1); cbn;
        [exact Hgo | exact Hstop].
  - destruct (Z.of_nat attempt <? Z.of_nat retries - 1); cbn;
      [exact Hgo | exact Hstop].
Qed.

(** X1. Whatever the Edge Function answers, one [_call_embed] with the
    default of three retries makes at least zero and at most three POSTs,
    and the sleeps it takes are the first waits of 2, 4, 8 seconds, never
    more of them than POSTs made. *)
Theorem call_embed_budget `{EdgeFunction} (text : string) (w : world) :
  ∃ k j : nat,
    (j ≤ k ≤ 3)%nat ∧
    posts (_call_embed text default_retries w).2 = (posts w + k)%nat ∧
    slept (_call_embed text default_retries w).2 = slept w ++ take j [2; 4; 8].
Proof.
  destruct (call_embed_loop_budget text default_retries (seq 0 default_retries) w)
    as (k & j & Hkj & Hp & Hs).
  exists k, j. unfold _call_embed. rewrite Hp, Hs. split_and!; try done.
  - apply Hkj.
  - apply Hkj.
  - f_equal. change [2; 4; 8] with (backoff <$> seq 0 default_retries).
    by rewrite fmap_take.
Qed.

Lemma client_error_tests status_code :
  400 <= status_code < 500 →
  (status_code =? 546) || (500 <=? status_code) = false ∧
  (400 <=? status_code) && (status_code <? 600) = true.
Proof.
  intros [Hlo Hhi]. split.
  - apply orb_false_iff. split; [apply Z.eqb_neq | apply Z.leb_gt]; lia.
  - apply andb_true_iff. split; [apply Z.leb_le | apply Z.ltb_lt]; lia.
Qed.

(** X2. A client error is retried like a transport error: when the three
    attempts are answered with a 4xx status, [_call_embed] makes three
    POSTs, sleeps 2 and 4 seconds (not after the last attempt) and raises
    the HTTPError of the last attempt, not the RuntimeError. *)
Theorem call_embed_client_error `{EdgeFunction} (text : string) (w : world) :
  (∀ k, (k < 3)%nat →
        ∃ status_code body,
          edge_answer (posts w + k)%nat text = PostResponse status_code body ∧
          400 <= status_code < 500) →
  _call_embed text default_retries w =
  (Raise (RequestException "HTTPError"),
   mkWorld (table w) (store_log w) (posts w + 3)%nat (slept w ++ [2; 4]) (clock w)).
Proof.
  intros Hall.
  destruct (Hall 0%nat) as (s0 & b0 & H0 & [Ha0 Hb0]%client_error_tests); [lia|].
  destruct (Hall 1%nat) as (s1 & b1 & H1 & [Ha1 Hb1]%client_error_tests); [lia|].
  destruct (Hall 2%nat) as (s2 & b2 & H2 & [Ha2 Hb2]%client_error_tests); [lia|].
  rewrite Nat.add_0_r in H0. rewrite Nat.add_1_r in H1.
  replace (posts w + 2)%nat with (S (S (posts w))) in H2 by lia.
  unfold _call_embed, default_retries. cbn [seq call_embed_loop].
  unfold mbind, M_bind, bind, try_except_request, requests_post, raise_for_status.
  change (Z.of_nat 0 <? Z.of_nat 3 - 1) with true.
  change (Z.of_nat 1 <? Z.of_nat 3 - 1) with true.
  change (Z.of_nat 2 <? Z.of_nat 3 - 1) with false.
  unfold mret, M_ret, ret, raise, time_sleep.
  rewrite H0. cbn. rewrite Ha0, Hb0. cbn.
  rewrite H1. cbn. rewrite Ha1, Hb1. cbn.
  rewrite H2. cbn. rewrite Ha2, Hb2. cbn.
  f_equal. f_equal; [lia|]. by rewrite <- app_assoc.
Qed.

Lemma call_embed_client_error_witness :
  @_call_embed Examples.edge_forbidden "hello" default_retries Examples.world0 =
  (Raise (RequestException "HTTPError"), mkWorld [] [] 3 [2; 4] 0).
Proof.
  apply (@call_embed_client_error Examples.edge_forbidden "hello" Examples.world0).
  intros k _. exists 403, (JsonObject None). split; [reflexivity | lia].
Defined.

(** X3. An answer without the key 'embedding' is not retried: when the
    first answer has a status below 400 and a JSON body without that key,
    [_call_embed] raises KeyError after one POST and no sleep. *)
Theorem call_embed_missing_key `{EdgeFunction} (text : string) (w : world)
    (status_code : Z) :
  status_code < 400 →
  edge_answer (posts w) text = PostResponse status_code (JsonObject None) →
  _call_embed text default_retries w =
  (Raise (KeyError "embedding"),
   mkWorld (table w) (store_log w) (S (posts w)) (slept w) (clock w)).
Proof.
  intros Hst Hans. unfold _call_embed, default_retries. cbn [seq call_embed_loop].
  unfold mbind, M_bind, bind, try_except_request, requests_post, raise_for_status.
  rewrite Hans. cbn.
  replace ((status_code =? 546) || (500 <=? status_code)) with false
    by (symmetry; apply orb_false_iff; split; [apply Z.eqb_neq | apply Z.leb_gt]; lia).
  cbn.
  replace ((400 <=? status_code) && (status_code <? 600)) with false
    by (symmetry; apply andb_false_iff; left; apply Z.leb_gt; lia).
  reflexivity.
Qed.

Lemma call_embed_missing_key_witness :
  @_call_embed Examples.edge_no_key "hello" default_retries Examples.world0 =
  (Raise (KeyError "embedding"), mkWorld [] [] 1 [] 0).
Proof.
  apply (@call_embed_missing_key Examples.edge_no_key "hello" Examples.world0 200).
  - lia.
  - reflexivity.
Defined.

(** X4. [embed_texts] never changes the table, the request log or the
    clock, whether it returns or raises; when it returns, it returns one
    vector per text. *)
Theorem embed_texts_outcome `{EdgeFunction} (texts : list string) (w : world) :
  match embed_texts texts w with
  | (Ok embeddings, w') => length embeddings = length texts ∧ same_store w w'
  | (Raise _, w') => same_store w w'
  end.
Proof.
  pose proof (embed_texts_frame texts w) as Hframe.
  destruct (embed_texts texts w) as [[embeddings|e] w'] eqn:E; [|done].
  split; [by eapply embed_texts_length | done].
Qed.

End EmbedderMore.

(* --------------------------------------------------------------------- *)
(** ** More about processor/deduplicator.py                               *)
(* --------------------------------------------------------------------- *)

Module DeduplicatorMore.
Import Deduplicator DeduplicatorFacts PyHeap PyHeapFacts.

Lemma elem_of_urls_keys (cs : list HChunk) u :
  u ∈ (fun c : HChunk => url c) <$> cs ↔ ∃ h, (u, h) ∈ chunk_key <$> cs.
Proof.
  rewrite list_elem_of_fmap. split.
  - intros (c & -> & Hc). exists (content_hash c).
    apply list_elem_of_fmap. by exists c.
  - intros (h & (c & [= -> ->] & Hc)%list_elem_of_fmap). by exists c.
Qed.

(** X5. The change test looks at the set of (url, fingerprint) pairs of
    the fresh chunks and at nothing else: two chunk lists with the same set
    of pairs (chunks reordered, repeated, renumbered or retitled) give the
    same changed set against every prior map. *)
Theorem find_changed_urls_by_pairs (cs cs' : list HChunk)
    (existing_hashes : gmap string (gset string)) :
  list_to_set (chunk_key <$> cs) =@{gset (string * string)}
    list_to_set (chunk_key <$> cs') →
  find_changed_urls cs existing_hashes = find_changed_urls cs' existing_hashes.
Proof.
  intros Hpairs.
  assert (∀ p, p ∈ chunk_key <$> cs ↔ p ∈ chunk_key <$> cs') as Hmem.
  { intros p. rewrite <- !(elem_of_list_to_set (C := gset (string * string))).
    by rewrite Hpairs. }
  assert (∀ u, fresh_fingerprints cs u = fresh_fingerprints cs' u) as Hfresh.
  { intros u. apply set_eq. intros h. by rewrite !elem_of_fresh_fingerprints. }
  apply set_eq. intros u. rewrite !elem_of_find_changed_urls, !elem_of_urls_keys.
  rewrite Hfresh. split; intros [(h & Hh) Hne]; (split; [|done]);
    exists h; by apply Hmem.
Qed.

Lemma find_changed_urls_by_pairs_witness :
  find_changed_urls
    [Examples.chunk_a 0 "h1"; Examples.chunk_a 1 "h2"] {["A" := {["h1"]}]} =
  find_changed_urls
    [Examples.chunk_a 5 "h2"; Examples.chunk_a 0 "h1"; Examples.chunk_a 7 "h2"]
    {["A" := {["h1"]}]}.
Proof.
  apply (find_changed_urls_by_pairs
           [Examples.chunk_a 0 "h1"; Examples.chunk_a 1 "h2"]
           [Examples.chunk_a 5 "h2"; Examples.chunk_a 0 "h1"; Examples.chunk_a 7 "h2"]
           {["A" := {["h1"]}]}).
  vm_compute. reflexivity.
Defined.

Lemma hash_chunks_app `{Hashlib} items1 items2 h :
  hash_chunks (items1 ++ items2) h =
  match hash_chunks items1 h with
  | (Ok _, h') => hash_chunks items2 h'
  | (Raise e, h') => (Raise e, h')
  end.
Proof.
  revert h. induction items1 as [|l items1 IH]; intros h; [done|].
  cbn [app hash_chunks]. destruct (hash_chunk l h) as [[[]|e] h1]; [apply IH | done].
Qed.

(** X6. A dict without 'content' stops the loop with KeyError and nothing
    is undone: the dicts listed before it keep the fingerprint they were
    given, every other object of the heap (the faulty dict and the dicts
    after it included, unless listed before) is as it was. *)
Theorem compute_hashes_key_error `{Hashlib} (chunks bad : nat)
    (done_items rest : list nat) (h : gmap nat object) (d : gmap string value) :
  h !! chunks = Some (OList (done_items ++ bad :: rest)) →
  (∀ l, l ∈ done_items → chunk_dict_at h l) →
  h !! bad = Some (ODict d) →
  d !! "content" = None →
  ∃ h',
    compute_hashes_for_chunks chunks h = (Raise (KeyError "content"), h') ∧
    ∀ l, h' !! l =
         if decide (l ∈ done_items) then hash_object <$> h !! l else h !! l.
Proof.
  intros Hlist Hdone Hbad Hnone. unfold compute_hashes_for_chunks.
  rewrite Hlist, hash_chunks_app.
  destruct (hash_chunks_ok done_items h Hdone) as (h1 & -> & Hh1).
  assert (bad ∉ done_items) as Hnotin.
  { intros (d0 & text & Hd0 & Hc)%Hdone. congruence. }
  exists h1. split; [|done].
  cbn [hash_chunks]. unfold hash_chunk.
  by rewrite Hh1, decide_False, Hbad, Hnone.
Qed.

Lemma compute_hashes_key_error_witness :
  ∃ h',
    @compute_hashes_for_chunks Examples.toy_hashlib 0 Examples.broken_heap =
      (Raise (KeyError "content"), h') ∧
    ∀ l, h' !! l =
         if decide (l ∈ [1]) then
           @hash_object Examples.toy_hashlib <$> Examples.broken_heap !! l
         else Examples.broken_heap !! l.
Proof.
  apply (@compute_hashes_key_error Examples.toy_hashlib 0 3 [1] [2]
           Examples.broken_heap {["url" := VStr "A"]}).
  - reflexivity.
  - intros l ->%list_elem_of_singleton. eexists _, "hello world". split; reflexivity.
  - reflexivity.
  - reflexivity.
Defined.

End DeduplicatorMore.

(* --------------------------------------------------------------------- *)
(** ** More about database/supabase_client.py                             *)
(* --------------------------------------------------------------------- *)

Module SupabaseMore.
Import Deduplicator SupabaseClient ListFacts WorldFacts DeduplicatorFacts SupabaseFacts.

(** zip stops at the shorter list. *)
Lemma fst_zip_take {A B} (l : list A) (k : list B) :
  (zip l k).*1 = take (length k) l.
Proof.
  revert k. induction l as [|x l IH]; intros [|y k]; cbn; try done.
  by rewrite IH.
Qed.

Lemma stored_fingerprints_keys t u h :
  h ∈ stored_fingerprints t u ↔ (u, h) ∈ row_key <$> t.
Proof. apply elem_of_stored_fingerprints. Qed.

(** X7. Insert, then look up: [upsert_chunks] cannot fail, it adds one row
    per chunk for which an embedding was passed (chunks beyond the number
    of embeddings are dropped without notice), and what
    [get_existing_hashes] then reads for a URL is what the table held for it
    before together with the fingerprints of those chunks. *)
Theorem upsert_then_read (chunks : list HChunk) (embeddings : list Vec)
    (w : world) (u : string) :
  (upsert_chunks chunks embeddings w).1 = Ok tt ∧
  length (table (upsert_chunks chunks embeddings w).2) =
    length (table w) + length chunks `min` length embeddings ∧
  (get_existing_hashes (upsert_chunks chunks embeddings w).2).1 =
    Ok (hashes_of_rows (table (upsert_chunks chunks embeddings w).2)) ∧
  default ∅ (hashes_of_rows (table (upsert_chunks chunks embeddings w).2) !! u) =
    stored_fingerprints (table w) u ∪
    fresh_fingerprints (take (length embeddings) chunks) u.
Proof.
  destruct (upsert_chunks_spec chunks embeddings w) as (ins & -> & _). cbn.
  split_and!; [done| |done|].
  - rewrite length_app, length_fmap, length_zip. done.
  - rewrite hashes_of_rows_default. apply set_eq. intros h.
    rewrite elem_of_union, !stored_fingerprints_keys, elem_of_fresh_fingerprints.
    rewrite fmap_app, elem_of_app, <- fst_zip_take.
    rewrite <- !list_fmap_compose.
    assert ((row_key ∘ make_row (clock w)) <$> zip chunks embeddings =
            (chunk_key ∘ fst) <$> zip chunks embeddings) as ->; [|done].
    apply list_fmap_ext. by intros i [c e] _.
Qed.

Lemma range_from_below fuel i n step j :
  j ∈ range_from fuel i n step → i ≤ j < n.
Proof.
  revert i. induction fuel as [|fuel IH]; intros i; [by intros ?%elem_of_nil|].
  cbn [range_from].
  destruct (Nat.ltb_spec i n) as [Hlt|Hge]; [|by intros ?%elem_of_nil].
  intros [->|Hj%IH]%elem_of_cons; lia.
Qed.

Lemma range_from_length fuel i n step :
  0 < step → n - i ≤ fuel →
  length (range_from fuel i n step) = (n - i + step - 1) / step.
Proof.
  intros Hstep. revert i. induction fuel as [|fuel IH]; intros i Hfuel.
  - cbn. symmetry. apply Nat.div_small. lia.
  - cbn [range_from]. destruct (Nat.ltb_spec i n) as [Hlt|Hge].
    + cbn [length]. rewrite IH by lia.
      replace (n - i + step - 1) with ((n - i - 1) + 1 * step) by lia.
      rewrite Nat.div_add by lia.
      destruct (Nat.le_gt_cases step (n - i)) as [Hbig|Hsmall].
      * replace (n - (i + step) + step - 1) with (n - i - 1) by lia. lia.
      * replace (n - (i + step) + step - 1) with (step - 1) by lia.
        rewrite !Nat.div_small by lia. lia.
    + cbn. symmetry. apply Nat.div_small. lia.
Qed.

(** X8. [upsert_chunks] sends its rows in insert requests of 1 to 100 rows
    each, ceil(n / 100) of them for n rows, which laid end to end are the
    rows in order; for no rows it sends no request at all. *)
Theorem upsert_chunks_batches (chunks : list HChunk) (embeddings : list Vec)
    (w : world) :
  ∃ batches : list (list Row),
    store_log (upsert_chunks chunks embeddings w).2 =
      store_log w ++ (OpInsert <$> batches) ∧
    concat batches = make_row (clock w) <$> zip chunks embeddings ∧
    Forall (fun batch => 0 < length batch ≤ 100) batches ∧
    length batches = (length chunks `min` length embeddings + 99) / 100.
Proof.
  pose (rows := make_row (clock w) <$> zip chunks embeddings).
  exists ((fun i => slice rows i (i + BATCH_SIZE)) <$>
            py_range 0 (length rows) BATCH_SIZE).
  unfold upsert_chunks, mbind, M_bind, bind, utcnow.
  rewrite insert_loop_spec. cbn -[Nat.div]. fold rows. split_and!.
  - by rewrite <- list_fmap_compose.
  - apply slices_cover.
  - apply Forall_fmap, Forall_forall. intros i Hi%range_from_below.
    unfold compose, slice, BATCH_SIZE. rewrite length_take, length_drop. lia.
  - rewrite length_fmap. unfold py_range, BATCH_SIZE.
    rewrite range_from_length by lia.
    unfold rows. rewrite length_fmap, length_zip.
    f_equal. lia.
Qed.

(** X10. [get_existing_hashes] cannot fail and leaves the table as it is;
    the dict it returns has one key per URL that has a row, and binds it to
    the set of fingerprints stored for that URL, which is never empty. *)
Theorem get_existing_hashes_reads (w : world) (u : string) :
  (get_existing_hashes w).1 = Ok (hashes_of_rows (table w)) ∧
  table (get_existing_hashes w).2 = table w ∧
  (u ∈ dom (hashes_of_rows (table w)) ↔ u ∈ row_url <$> table w) ∧
  match hashes_of_rows (table w) !! u with
  | Some hashes => hashes = stored_fingerprints (table w) u ∧ hashes ≠ ∅
  | None => stored_fingerprints (table w) u = ∅
  end.
Proof.
  cbn. split_and!; [done | done | apply elem_of_dom_hashes_of_rows |].
  rewrite hashes_of_rows_lookup. case_decide as Hu.
  - split; [done|]. apply list_elem_of_fmap in Hu as (r & -> & Hr).
    intros Hempty.
    assert (row_content_hash r ∈ stored_fingerprints (table w) (row_url r)) as Hin.
    { apply elem_of_stored_fingerprints, list_elem_of_fmap. by exists r. }
    rewrite Hempty in Hin. set_solver.
  - by apply stored_fingerprints_absent.
Qed.

End SupabaseMore.

(* --------------------------------------------------------------------- *)
(** ** More about config.py                                               *)
(* --------------------------------------------------------------------- *)

Module ConfigMore.
Import Config.

Lemma falsy_false x : falsy x = false ↔ ∃ v, x = Some v ∧ v ≠ "".
Proof.
  destruct x as [v|]; cbn.
  - rewrite bool_decide_eq_false. split; [eauto | by intros (? & [= <-] & ?)].
  - split; [done | by intros (? & ? & _)].
Qed.

Lemma validate_raises cfg e :
  validate cfg = Raise e → ∃ msg, e = EnvironmentError msg.
Proof.
  unfold validate.
  destruct (_ ++ _); [done|]. intros [= <-]. eauto.
Qed.

(** X11. [validate] accepts a configuration exactly when the three
    Supabase variables are set to non-empty values; in every other case it
    raises EnvironmentError. The target domain and the two caps are not
    looked at. *)
Theorem validate_accepts (cfg : config) :
  (validate cfg = Ok tt ↔
   (∃ v, SUPABASE_URL cfg = Some v ∧ v ≠ "") ∧
   (∃ v, SUPABASE_SERVICE_KEY cfg = Some v ∧ v ≠ "") ∧
   (∃ v, SUPABASE_ANON_KEY cfg = Some v ∧ v ≠ "")) ∧
  (validate cfg = Ok tt ∨ ∃ msg, validate cfg = Raise (EnvironmentError msg)).
Proof.
  rewrite <- !falsy_false. unfold validate.
  destruct (falsy (SUPABASE_URL cfg)), (falsy (SUPABASE_SERVICE_KEY cfg)),
    (falsy (SUPABASE_ANON_KEY cfg)); cbn;
    (split; [split; [try done; by intros (? & ? & ?) | try done; by intros (? & ? & ?)]
            | eauto]).
Qed.

End ConfigMore.

(* --------------------------------------------------------------------- *)
(** ** More about crawler/spider.py                                       *)
(* --------------------------------------------------------------------- *)

Module SpiderMore.
Import PyStr Config Spider More SpiderFacts.

Lemma size_add_one (X : gset string) (u : string) : size (X ∪ {[u]}) ≤ S (size X).
Proof.
  rewrite size_union_alt.
  assert (size ({[u]} ∖ X : gset string) ≤ 1); [|lia].
  rewrite <- (size_singleton (C := gset string) u). apply subseteq_size. set_solver.
Qed.

Lemma sitemap_step_caps `{Urllib} cfg pages pdfs e :
  within_caps cfg pages pdfs →
  within_caps cfg (sitemap_step cfg (pages, pdfs) e).1
                  (sitemap_step cfg (pages, pdfs) e).2.
Proof.
  intros [Hpages Hpdfs]. unfold sitemap_step.
  destruct (classify e) as [|u|u]; [done| |].
  - destruct (Nat.ltb_spec (size pdfs) (MAX_PDFS cfg)); [|done].
    split; [done|]. cbn. pose proof (size_add_one pdfs u). lia.
  - destruct (Nat.ltb_spec (size pages) (MAX_PAGES cfg)); [|done].
    split; [|done]. cbn. pose proof (size_add_one pages u). lia.
Qed.

Lemma sitemap_loop_caps `{Urllib} cfg url_elems acc :
  within_caps cfg acc.1 acc.2 →
  within_caps cfg (foldl (sitemap_step cfg) acc url_elems).1
                  (foldl (sitemap_step cfg) acc url_elems).2.
Proof.
  revert acc. induction url_elems as [|e es IH]; intros [pages pdfs] Hacc; [done|].
  cbn [foldl]. apply IH. by apply sitemap_step_caps.
Qed.

Lemma bfs_step_caps `{Urllib} `{Web} cfg base_domain st st' :
  bfs_step cfg base_domain st = Some st' →
  within_caps cfg (page_urls st) (pdf_urls st) →
  within_caps cfg (page_urls st') (pdf_urls st').
Proof.
  intros Hstep [Hpages Hpdfs]. unfold bfs_step in Hstep.
  destruct (queue st) as [|url0 queue']; [done|].
  destruct (_ && _); [done|].
  destruct (negb (startswith _ "http")); [by injection Hstep as <-|].
  case_bool_decide; [by injection Hstep as <-|].
  destruct (negb (bool_decide _)); [by injection Hstep as <-|].
  destruct (endswith (lower _) ".pdf").
  - destruct (Nat.ltb_spec (size (pdf_urls st)) (MAX_PDFS cfg));
      injection Hstep as <-; [|done].
    split; [done|]. cbn.
    pose proof (size_add_one (pdf_urls st) (rstrip_slash (before_hash url0))). lia.
  - destruct (Nat.leb_spec (MAX_PAGES cfg) (size (page_urls st)));
      [by injection Hstep as <-|].
    destruct (session_get _) as [|content_type status_code hrefs];
      [by injection Hstep as <-|].
    destruct (negb (contains _ _)); [by injection Hstep as <-|].
    destruct (_ && _)%Z; injection Hstep as <-; [done|].
    split; [|done]. cbn.
    pose proof (size_add_one (page_urls st) (rstrip_slash (before_hash url0))). lia.
Qed.

Lemma bfs_loop_caps `{Urllib} `{Web} cfg base_domain fuel st st' :
  bfs_loop cfg base_domain fuel st = Some st' →
  within_caps cfg (page_urls st) (pdf_urls st) →
  within_caps cfg (page_urls st') (pdf_urls st').
Proof.
  revert st. induction fuel as [|fuel IH]; intros st; [done|].
  cbn [bfs_loop]. destruct (bfs_step cfg base_domain st) as [st1|] eqn:Estep.
  - intros Hloop Hst. apply (IH st1 Hloop). by eapply bfs_step_caps.
  - by intros [= <-].
Qed.

(** X12. Whatever [crawl] returns, by the sitemap or by the breadth-first
    crawl, the page set has at most MAX_PAGES members and the PDF set at
    most MAX_PDFS. *)
Theorem crawl_within_caps `{Urllib} `{XmlParser} `{Web} (cfg : config)
    (sitemap_file seed_url : option string) (fuel : nat)
    (pages pdfs : gset string) (log : list string) :
  crawl cfg sitemap_file seed_url fuel = Some (Ok (pages, pdfs), log) →
  size pages ≤ MAX_PAGES cfg ∧ size pdfs ≤ MAX_PDFS cfg.
Proof.
  intros Hcrawl. unfold crawl in Hcrawl. destruct sitemap_file as [sitemap|].
  - unfold _load_sitemap in Hcrawl.
    destruct (et_parse sitemap) as [url_elems|e]; [|done].
    injection Hcrawl as Hfold _.
    pose proof (sitemap_loop_caps cfg url_elems (∅, ∅)) as Hc.
    rewrite Hfold in Hc. apply Hc. split; cbn; rewrite size_empty; lia.
  - unfold _bfs_crawl in Hcrawl.
    destruct (bfs_loop _ _ _ _) as [st'|] eqn:Eloop; [|done].
    injection Hcrawl as <- <- _.
    eapply bfs_loop_caps; [done|]. split; cbn; rewrite size_empty; lia.
Qed.

Lemma crawl_within_caps_witness :
  size Examples.small_result.1 ≤ MAX_PAGES Examples.cfg_example ∧
  size Examples.small_result.2 ≤ MAX_PDFS Examples.cfg_example.
Proof.
  apply (@crawl_within_caps Examples.toy_urllib Examples.toy_xml Examples.small_web
           Examples.cfg_example None None 20
           Examples.small_result.1 Examples.small_result.2 Examples.small_log).
  vm_compute. reflexivity.
Defined.

(** X13. Every address the breadth-first crawl admits, as a page or as a
    PDF, has the base domain of the seed (its authority, lower-cased and
    with every "www." removed). *)
Theorem bfs_crawl_in_scope `{Urllib} `{Web} (cfg : config)
    (seed_url : option string) (fuel : nat)
    (pages pdfs : gset string) (log : list string) :
  _bfs_crawl cfg seed_url fuel = Some (Ok (pages, pdfs), log) →
  ∀ u, u ∈ pages ∪ pdfs →
       _get_base_domain (urlparse_netloc u) =
       _get_base_domain (urlparse_netloc (seed_of cfg seed_url)).
Proof.
  unfold _bfs_crawl. intros Hcrawl.
  destruct (bfs_loop _ _ _ _) as [st'|] eqn:Eloop; [|done].
  injection Hcrawl as <- <- _.
  eapply bfs_loop_in_scope; [done|]. intros u Hu. cbn in Hu. set_solver.
Qed.

Lemma bfs_crawl_in_scope_witness :
  _get_base_domain (@urlparse_netloc Examples.toy_urllib "https://www.example.org/x") =
  _get_base_domain (@urlparse_netloc Examples.toy_urllib
                      (seed_of Examples.cfg_example None)).
Proof.
  apply (@bfs_crawl_in_scope Examples.toy_urllib Examples.small_web
           Examples.cfg_example None 20
           Examples.small_result.1 Examples.small_result.2 Examples.small_log).
  - vm_compute. reflexivity.
  - apply (bool_decide_unpack _). vm_compute. exact I.
Defined.

Lemma bfs_loop_more_fuel `{Urllib} `{Web} cfg base_domain fuel extra st st' :
  bfs_loop cfg base_domain fuel st = Some st' →
  bfs_loop cfg base_domain (fuel + extra) st = Some st'.
Proof.
  revert st. induction fuel as [|fuel IH]; intros st; [done|].
  cbn [bfs_loop Nat.add]. destruct (bfs_step cfg base_domain st); [apply IH | done].
Qed.

(** X14. The breadth-first crawl ends on every web, also one with
    endlessly many linked pages: some number of loop iterations gives a
    result, and every larger number gives the same result. *)
Theorem bfs_crawl_terminates `{Urllib} `{Web} (cfg : config)
    (seed_url : option string) :
  ∃ fuel r, ∀ fuel', fuel ≤ fuel' → _bfs_crawl cfg seed_url fuel' = Some r.
Proof.
  destruct (bfs_loop_terminates_from cfg
              (_get_base_domain (urlparse_netloc (seed_of cfg seed_url)))
              (MAX_PAGES cfg) 1 (bfs_init (seed_of cfg seed_url)))
    as (fuel & st' & Hloop); [cbn; lia | cbn; lia | set_solver |].
  exists fuel, (Ok (page_urls st', pdf_urls st'), fetched st').
  intros fuel' Hle. unfold _bfs_crawl.
  replace fuel' with (fuel + (fuel' - fuel)) by lia.
  by rewrite (bfs_loop_more_fuel _ _ _ _ _ _ Hloop).
Qed.

Lemma bfs_step_discipline `{Urllib} `{Web} cfg base_domain st st' :
  bfs_step cfg base_domain st = Some st' →
  fetch_discipline base_domain st → fetch_discipline base_domain st'.
Proof.
  intros Hstep (Hnd & Hvis & Hok & Hpages). unfold bfs_step in Hstep.
  destruct (queue st) as [|url0 queue']; [done|].
  destruct (_ && _); [done|].
  destruct (startswith _ "http") eqn:Ehttp; cbn [negb] in Hstep;
    [|by injection Hstep as <-].
  case_bool_decide as Hnew; [by injection Hstep as <-|].
  assert (∀ u, u ∈ fetched st → u ∈ visited st ∪ {[rstrip_slash (before_hash url0)]})
    as Hvis' by set_solver.
  case_bool_decide as Edom; cbn [negb] in Hstep; [|by injection Hstep as <-].
  destruct (endswith (lower _) ".pdf") eqn:Epdf.
  - destruct (size (pdf_urls st) <? MAX_PDFS cfg); by injection Hstep as <-.
  - destruct (MAX_PAGES cfg <=? size (page_urls st)); [by injection Hstep as <-|].
    assert (fetch_discipline base_domain
              (mkBfs queue' (visited st ∪ {[rstrip_slash (before_hash url0)]})
                     (page_urls st) (pdf_urls st)
                     (fetched st ++ [rstrip_slash (before_hash url0)]))) as Hfetch.
    { split_and!; cbn.
      - apply NoDup_app. split_and!; [done | | apply NoDup_singleton].
        intros u Hu ->%list_elem_of_singleton. by apply Hnew, Hvis.
      - intros u [Hu| ->%list_elem_of_singleton]%elem_of_app; set_solver.
      - intros u [Hu| ->%list_elem_of_singleton]%elem_of_app; [by apply Hok|].
        split_and!; [done..|]. unfold is_pdf. by rewrite Epdf.
      - intros u Hu. apply elem_of_app. left. by apply Hpages. }
    destruct (session_get _) as [|content_type status_code hrefs];
      [by injection Hstep as <-|].
    destruct (negb (contains _ _)); [by injection Hstep as <-|].
    destruct (_ && _)%Z; injection Hstep as <-; [done|].
    destruct Hfetch as (Hnd' & Hvis2 & Hok' & Hpages').
    split_and!; cbn in *; try done.
    intros u [Hu| ->%elem_of_singleton]%elem_of_union; [by apply Hpages'|].
    apply elem_of_app. right. by left.
Qed.

Lemma bfs_loop_discipline `{Urllib} `{Web} cfg base_domain fuel st st' :
  bfs_loop cfg base_domain fuel st = Some st' →
  fetch_discipline base_domain st → fetch_discipline base_domain st'.
Proof.
  revert st. induction fuel as [|fuel IH]; intros st; [done|].
  cbn [bfs_loop]. destruct (bfs_step cfg base_domain st) as [st1|] eqn:Estep.
  - intros Hloop Hst. apply (IH st1 Hloop). by eapply bfs_step_discipline.
  - by intros [= <-].
Qed.

(** X15. The breadth-first crawl fetches no address twice; every address
    it fetches starts with "http", has the base domain of the seed and does
    not end with ".pdf"; every admitted page was fetched, and no admitted
    PDF ever is (PDFs are recorded by their address alone). *)
Theorem bfs_crawl_fetches `{Urllib} `{Web} (cfg : config)
    (seed_url : option string) (fuel : nat)
    (pages pdfs : gset string) (log : list string) :
  _bfs_crawl cfg seed_url fuel = Some (Ok (pages, pdfs), log) →
  NoDup log ∧
  (∀ u, u ∈ log →
        startswith u "http" = true ∧
        _get_base_domain (urlparse_netloc u) =
          _get_base_domain (urlparse_netloc (seed_of cfg seed_url)) ∧
        ¬ is_pdf u) ∧
  (∀ u, u ∈ pages → u ∈ log) ∧
  (∀ u, u ∈ pdfs → u ∉ log).
Proof.
  unfold _bfs_crawl. intros Hcrawl.
  destruct (bfs_loop _ _ _ _) as [st'|] eqn:Eloop; [|done].
  injection Hcrawl as <- <- <-.
  destruct (bfs_loop_discipline _ _ _ _ _ Eloop) as (Hnd & _ & Hok & Hpages).
  { split_and!; cbn; [apply NoDup_nil_2 | | |]; by intros u ?%elem_of_nil
      || set_solver. }
  destruct (bfs_loop_sorted _ _ _ _ _ Eloop) as [Hpdf _]; [split; set_solver|].
  split_and!; try done.
  intros u Hu Hlog. by apply (Hok u Hlog), Hpdf.
Qed.

Lemma bfs_crawl_fetches_witness :
  NoDup Examples.small_log ∧
  (∀ u, u ∈ Examples.small_log →
        startswith u "http" = true ∧
        _get_base_domain (@urlparse_netloc Examples.toy_urllib u) =
          _get_base_domain (@urlparse_netloc Examples.toy_urllib
                              (seed_of Examples.cfg_example None)) ∧
        ¬ is_pdf u) ∧
  (∀ u, u ∈ Examples.small_result.1 → u ∈ Examples.small_log) ∧
  (∀ u, u ∈ Examples.small_result.2 → u ∉ Examples.small_log).
Proof.
  apply (@bfs_crawl_fetches Examples.toy_urllib Examples.small_web
           Examples.cfg_example None 20
           Examples.small_result.1 Examples.small_result.2 Examples.small_log).
  vm_compute. reflexivity.
Defined.






Lemma lower_char_idemp c : lower_char (lower_char c) = lower_char c.
Proof. destruct c as [[] [] [] [] [] [] [] []]; reflexivity. Qed.

Lemma lower_idemp s : lower (lower s) = lower s.
Proof. induction s as [|c s IH]; [done|]. cbn. by rewrite lower_char_idemp, IH. Qed.

(** X17. On an ASCII authority the domain comparison ignores the case of
    the letters and a leading "www." in any case: the base domain is that
    of the lower-case form, and putting "www.", "WWW." or "Www." in front
    does not change it. *)
Theorem get_base_domain_normalises (netloc : string) :
  all_chars is_ascii netloc = true →
  _get_base_domain (lower netloc) = _get_base_domain netloc ∧
  _get_base_domain ("www." +:+ netloc) = _get_base_domain netloc ∧
  _get_base_domain ("WWW." +:+ netloc) = _get_base_domain netloc ∧
  _get_base_domain ("Www." +:+ netloc) = _get_base_domain netloc.
Proof.
  intros _. unfold _get_base_domain. split_and!; [by rewrite lower_idemp | done..].
Qed.

Lemma get_base_domain_normalises_witness :
  _get_base_domain (lower "Example.ORG") = "example.org" ∧
  _get_base_domain ("www." +:+ "Example.ORG") = "example.org" ∧
  _get_base_domain ("WWW." +:+ "Example.ORG") = "example.org" ∧
  _get_base_domain ("Www." +:+ "Example.ORG") = "example.org".
Proof.
  apply (get_base_domain_normalises "Example.ORG"). reflexivity.
Defined.

(** X20. A seed that [urlparse] accepts (ASCII, no square bracket) and that
    does not start with "http" (a target domain written without its
    scheme, say) makes the breadth-first crawl end at once: both sets are
    empty and nothing is fetched, without any error. *)
Theorem bfs_crawl_bad_seed `{Urllib} `{Web} (cfg : config)
    (seed_url : option string) (fuel : nat) :
  all_chars plain_char (seed_of cfg seed_url) = true →
  startswith (normalise (seed_of cfg seed_url)) "http" = false →
  2 ≤ fuel →
  _bfs_crawl cfg seed_url fuel = Some (Ok (∅, ∅), []).
Proof.
  intros _ Hseed Hfuel. destruct fuel as [|[|fuel]]; [lia..|].
  unfold _bfs_crawl, bfs_init. cbn [bfs_loop]. unfold bfs_step at 1. cbn.
  unfold normalise in Hseed.
  destruct (_ && _); [done|]. rewrite Hseed. cbn.
  destruct fuel; reflexivity.
Qed.

Lemma bfs_crawl_bad_seed_witness :
  @_bfs_crawl Examples.toy_urllib Examples.small_web cfg_no_scheme None 5 =
  Some (Ok (∅, ∅), []).
Proof.
  apply (@bfs_crawl_bad_seed Examples.toy_urllib Examples.small_web
           cfg_no_scheme None 5).
  - reflexivity.
  - reflexivity.
  - lia.
Defined.

End SpiderMore.

(* --------------------------------------------------------------------- *)
(** ** More about processor/chunker.py and main.py                        *)
(* --------------------------------------------------------------------- *)

Module MainMore.
Import Deduplicator SupabaseClient Chunker Embedder Main More.
Import ListFacts WorldFacts DeduplicatorFacts EmbedderFacts SupabaseFacts MainFacts.

Lemma filter_nothing {A} (P : A → Prop) `{!∀ x, Decision (P x)} (l : list A) :
  (∀ x, x ∈ l → ¬ P x) → filter P l = [].
Proof.
  induction l as [|x l IH]; intros Hall; [done|].
  rewrite filter_cons_False by (apply Hall; left).
  apply IH. intros y Hy. apply Hall. by right.
Qed.

(** X21. The chunks of a document are numbered 0, 1, 2, ... in the order
    of the splitter's pieces, carry those pieces as their content, and all
    carry the url, title and type of the document. *)
Theorem chunk_document_shape `{Collaborators} (document : Document) :
  chunk_index <$> chunk_document document =
    seq 0 (length (split_text (doc_content document))) ∧
  content <$> chunk_document document = split_text (doc_content document) ∧
  Forall (fun c => url c = doc_url document ∧ title c = doc_title document ∧
                   type c = doc_type document)
         (chunk_document document).
Proof.
  unfold chunk_document. split_and!.
  - rewrite fmap_imap.
    rewrite (imap_ext _ (fun i _ => i)) by done.
    by rewrite (imap_seq_0 _ (fun i => i)), list_fmap_id.
  - rewrite fmap_imap.
    rewrite (imap_ext _ (const (fun text => text))) by done.
    by rewrite imap_const, list_fmap_id.
  - apply Forall_forall. by intros c (i & text & -> & _)%elem_of_lookup_imap.
Qed.

(** X22. A successful run leaves the rows of every URL outside its
    processing set exactly as they were, rows and order: in particular the
    rows of a URL that is no longer crawled are never purged. *)
Theorem run_pipeline_keeps_other_rows `{Hashlib} `{EdgeFunction} `{Collaborators}
    (cfg : Config.config) (pages pdfs : gset string) (w w' : world) (s : Summary)
    (u : string) :
  run_pipeline cfg (Ok (pages, pdfs)) w = (Ok s, w') →
  u ∉ urls_to_process_of (fresh_chunks pages pdfs) (hashes_of_rows (table w)) →
  filter (fun r : Row => row_url r = u) (table w') =
  filter (fun r : Row => row_url r = u) (table w).
Proof.
  intros Hrun Hu. unfold fresh_chunks in Hu.
  apply run_pipeline_inv in Hrun as [(_ & _ & ->)|Hsync]; [done|].
  apply sync_spec in Hsync. cbn zeta in Hsync.
  destruct Hsync as [(_ & _ & ->)|(_ & added & ins & -> & Hperm & _)]; [done|].
  rewrite filter_app, list_filter_filter.
  rewrite (filter_nothing _ added), app_nil_r.
  - apply list_filter_iff. intros r. split; [tauto|]. intros ->. split; [done|].
    intros Hch%elem_of_elements. apply Hu. unfold urls_to_process_of. set_solver.
  - intros r Hr Heq. apply Hu.
    assert (row_key r ∈ row_key <$> added) as Hkey
      by (apply list_elem_of_fmap; eauto).
    rewrite Hperm in Hkey.
    apply list_elem_of_fmap in Hkey as (c & Hc & [Hin _]%list_elem_of_filter).
    injection Hc as Hc _. by rewrite <- Heq, Hc.
Qed.

Lemma run_pipeline_keeps_other_rows_witness :
  filter (fun r : Row => row_url r = "B") (table Examples.run2.2) =
  filter (fun r : Row => row_url r = "B") (table Examples.run1.2).
Proof.
  apply (@run_pipeline_keeps_other_rows Examples.toy_hashlib Examples.edge_up
           Examples.site_v2 Examples.cfg0 Examples.pages_ab ∅
           Examples.run1.2 Examples.run2.2 (Complete 2 1 0 1) "B").
  - vm_compute. reflexivity.
  - apply (bool_decide_unpack _). vm_compute. exact I.
Defined.

Lemma todo_has_chunk (all_chunks : list HChunk) existing :
  urls_to_process_of all_chunks existing ≠ ∅ →
  ∃ c rest,
    filter (fun c : HChunk => url c ∈ urls_to_process_of all_chunks existing)
           all_chunks = c :: rest.
Proof.
  intros Hne.
  destruct (filter _ all_chunks) as [|c rest] eqn:E; [|eauto].
  destruct Hne. apply set_eq. intros u. split; [|set_solver].
  intros Hu. pose proof (todo_subset_urls _ _ _ Hu) as Hin.
  apply list_elem_of_fmap in Hin as (c & -> & Hc).
  assert (c ∈ filter (fun c : HChunk => url c ∈ urls_to_process_of all_chunks existing)
                     all_chunks) as Hf by (by apply list_elem_of_filter).
  rewrite E in Hf. by apply elem_of_nil in Hf.
Qed.

(** X23. When the Edge Function is down (every POST answered 546 or 5xx)
    during a run that has something to process, the run has already purged
    the rows of all changed URLs when the first embedding fails; it then
    raises the RuntimeError and inserts nothing, so those URLs are left
    without rows. *)
Theorem run_pipeline_embedding_down `{Hashlib} `{EdgeFunction} `{Collaborators}
    (cfg : Config.config) (pages pdfs : gset string) (w : world) :
  Config.validate cfg = Ok tt →
  urls_to_process_of (fresh_chunks pages pdfs) (hashes_of_rows (table w)) ≠ ∅ →
  (∀ n text, ∃ status_code body,
       edge_answer n text = PostResponse status_code body ∧
       transient_status status_code) →
  run_pipeline cfg (Ok (pages, pdfs)) w =
  (Raise (RuntimeError "Failed to embed after 3 retries"),
   mkWorld
     (filter (fun r : Row => row_url r ∉
                elements (find_changed_urls (fresh_chunks pages pdfs)
                                            (hashes_of_rows (table w))))
             (table w))
     (store_log w ++ OpSelect ::
        (OpDelete <$> elements (find_changed_urls (fresh_chunks pages pdfs)
                                                  (hashes_of_rows (table w)))))
     (posts w + 3) (slept w ++ [2%Z; 4%Z; 8%Z]) (clock w)).
Proof.
  intros Hcfg Htodo Hdown. unfold run_pipeline. rewrite Hcfg.
  unfold fresh_chunks in *.
  destruct (extract_documents pages pdfs) as [|d ds] eqn:Edocs.
  { destruct Htodo. apply set_eq. intros u. split; [|set_solver].
    intros Hu%todo_subset_urls. by apply elem_of_nil in Hu. }
  destruct (todo_has_chunk _ _ Htodo) as (c & rest & Hup).
  unfold sync. unfold mbind at 1, M_bind at 1, bind at 1, get_existing_hashes.
  cbn [table log_op]. rewrite decide_False by done.
  unfold mbind at 1, M_bind at 1, bind at 1. rewrite delete_loop_spec.
  rewrite Hup. cbn [fmap list_fmap embed_all embed_texts].
  unfold mbind, M_bind, bind, _call_embed.
  rewrite call_embed_loop_transient by (intros k _; apply Hdown).
  cbn. by rewrite <- !app_assoc.
Qed.

Lemma run_pipeline_embedding_down_witness :
  @run_pipeline Examples.toy_hashlib Examples.edge_down Examples.site_v2
    Examples.cfg0 (Ok (Examples.pages_ab, ∅)) Examples.run1.2 =
  (Raise (RuntimeError "Failed to embed after 3 retries"),
   mkWorld
     (filter (fun r : Row => row_url r ∉
                elements (find_changed_urls
                            (@fresh_chunks Examples.toy_hashlib Examples.site_v2
                               Examples.pages_ab ∅)
                            (hashes_of_rows (table Examples.run1.2))))
             (table Examples.run1.2))
     (store_log Examples.run1.2 ++ OpSelect ::
        (OpDelete <$> elements (find_changed_urls
                                  (@fresh_chunks Examples.toy_hashlib Examples.site_v2
                                     Examples.pages_ab ∅)
                                  (hashes_of_rows (table Examples.run1.2)))))
     (posts Examples.run1.2 + 3) (slept Examples.run1.2 ++ [2%Z; 4%Z; 8%Z])
     (clock Examples.run1.2)).
Proof.
  apply (@run_pipeline_embedding_down Examples.toy_hashlib Examples.edge_down
           Examples.site_v2 Examples.cfg0 Examples.pages_ab ∅ Examples.run1.2).
  - reflexivity.
  - intros Hempty.
    assert ("A" ∈ urls_to_process_of
                    (@fresh_chunks Examples.toy_hashlib Examples.site_v2
                       Examples.pages_ab ∅)
                    (hashes_of_rows (table Examples.run1.2))) as Hin
      by (apply (bool_decide_unpack _); vm_compute; exact I).
    rewrite Hempty in Hin. by apply not_elem_of_empty in Hin.
  - intros n text. exists 503%Z, (JsonObject None). split; [reflexivity|].
    right. lia.
Defined.

(** X25. With an invalid configuration the program ends with the
    EnvironmentError of [validate] before anything else happens: no crawl
    (whatever the fuel and the sitemap), no request to the table, no
    embedding call. *)
Theorem main_invalid_config `{Hashlib} `{EdgeFunction} `{Collaborators}
    `{Spider.Urllib} `{Spider.XmlParser} `{Spider.Web}
    (cfg : Config.config) (sitemap_file : option string) (fuel : nat) (w : world)
    (crawled : result (gset string * gset string)) (e : exn) :
  Config.validate cfg = Raise e →
  main cfg sitemap_file fuel w = Some (Raise e, w) ∧
  run_pipeline cfg crawled w = (Raise e, w) ∧
  ∃ msg, e = EnvironmentError msg.
Proof.
  intros Hcfg. unfold main, run_pipeline. rewrite Hcfg. split_and!; [done..|].
  by eapply ConfigMore.validate_raises.
Qed.

Lemma main_invalid_config_witness :
  @main Examples.toy_hashlib Examples.edge_up Examples.site_v1
    Examples.toy_urllib Examples.toy_xml Examples.small_web
    More.cfg_no_key None 0 Examples.world0 =
  Some (Raise (EnvironmentError
                 "Missing required environment variables: SUPABASE_SERVICE_KEY"),
        Examples.world0) ∧
  @run_pipeline Examples.toy_hashlib Examples.edge_up Examples.site_v1
    More.cfg_no_key (Ok (Examples.pages_ab, ∅)) Examples.world0 =
  (Raise (EnvironmentError
            "Missing required environment variables: SUPABASE_SERVICE_KEY"),
   Examples.world0) ∧
  ∃ msg, EnvironmentError
           "Missing required environment variables: SUPABASE_SERVICE_KEY" =
         EnvironmentError msg.
Proof.
  apply (@main_invalid_config Examples.toy_hashlib Examples.edge_up Examples.site_v1
           Examples.toy_urllib Examples.toy_xml Examples.small_web
           More.cfg_no_key None 0 Examples.world0 (Ok (Examples.pages_ab, ∅))).
  reflexivity.
Defined.

Lemma elem_of_concat {A} (x : A) (ls : list (list A)) :
  x ∈ concat ls ↔ ∃ l, x ∈ l ∧ l ∈ ls.
Proof.
  induction ls as [|l0 ls IH]; cbn [concat].
  - split; [by intros ?%elem_of_nil | by intros (l & _ & ?%elem_of_nil)].
  - rewrite elem_of_app, IH. split.
    + intros [Hx|(l & Hx & Hl)]; [exists l0; split; [done | left]|].
      exists l. split; [done | by right].
    + intros (l & Hx & [->|Hl]%elem_of_cons); [by left | right; eauto].
Qed.

Section sort_and_group.
Context {A : Type} (key : A → string).

Lemma key_le_false (x y : A) :
  String.leb (key x) (key y) = false → key_le key y x ∧ key x ≠ key y.
Proof.
  intros Hxy. split.
  - destruct (total String.le (key x) (key y)) as [Hle|Hle]; [|done].
    unfold String.le in Hle. by rewrite Hxy in Hle.
  - intros Heq. rewrite Heq in Hxy.
    pose proof (reflexivity (R := String.le) (key y)) as Hrefl.
    unfold String.le in Hrefl. by rewrite Hxy in Hrefl.
Qed.

Lemma insert_by_sorted x l :
  StronglySorted (key_le key) l → StronglySorted (key_le key) (insert_by key x l).
Proof.
  induction 1 as [|y l Hsorted IH Hall]; cbn; [by repeat constructor|].
  destruct (String.leb (key x) (key y)) eqn:Hxy.
  - constructor; [by constructor|]. constructor.
    + unfold key_le, String.le. by rewrite Hxy.
    + eapply Forall_impl; [done|]. intros z Hyz. unfold key_le in *.
      etrans; [|done]. unfold String.le. by rewrite Hxy.
  - constructor; [done|]. rewrite insert_by_perm. constructor; [|done].
    by apply key_le_false.
Qed.

Lemma sort_by_sorted l : StronglySorted (key_le key) (sort_by key l).
Proof.
  induction l as [|x l IH]; [constructor|]. by apply insert_by_sorted.
Qed.

(** The sort is stable: items with the same key keep their order. *)
Lemma filter_insert_by k x l :
  filter (fun a => key a = k) (insert_by key x l) =
  filter (fun a => key a = k) (x :: l).
Proof.
  induction l as [|y l IH]; [done|]. cbn [insert_by].
  destruct (String.leb (key x) (key y)) eqn:Hxy; [done|].
  apply key_le_false in Hxy as [_ Hne].
  rewrite (filter_cons _ y), IH, !(filter_cons _ x), (filter_cons _ y).
  destruct (decide (key x = k)), (decide (key y = k)); congruence.
Qed.

Lemma filter_sort_by k l :
  filter (fun a => key a = k) (sort_by key l) = filter (fun a => key a = k) l.
Proof.
  induction l as [|x l IH]; [done|].
  unfold sort_by in *. cbn [foldr]. rewrite filter_insert_by.
  by rewrite !(filter_cons _ x), IH.
Qed.

Lemma groupby_keys l k g :
  (k, g) ∈ groupby key l → ∃ x g', g = x :: g' ∧ key x = k ∧ x ∈ l.
Proof.
  revert k g. induction l as [|x l IH]; intros k g; [by intros ?%elem_of_nil|].
  cbn [groupby]. destruct (groupby key l) as [|[k0 g0] gs] eqn:E.
  - intros [= -> ->]%list_elem_of_singleton. exists x, []. split_and!; [done..|left].
  - case_decide as Hk.
    + intros [[= -> ->]|Hin]%elem_of_cons.
      * exists x, g0. split_and!; [done..|left].
      * destruct (IH k g) as (y & g' & -> & Hy & Hin'); [by right|].
        exists y, g'. split_and!; [done..|by right].
    + intros [[= -> ->]|Hin]%elem_of_cons.
      * exists x, []. split_and!; [done..|left].
      * destruct (IH k g Hin) as (y & g' & -> & Hy & Hin').
        exists y, g'. split_and!; [done..|by right].
Qed.

(** On a sorted list every group is all the items of its key. *)
Lemma groupby_sorted l :
  StronglySorted (key_le key) l →
  NoDup (groupby key l).*1 ∧
  ∀ k g, (k, g) ∈ groupby key l → g = filter (fun a => key a = k) l.
Proof.
  induction 1 as [|x l Hsorted IH Hall]; [split; [constructor | by intros ?? ?%elem_of_nil]|].
  destruct IH as [Hnd Hgroups]. cbn [groupby].
  assert (∀ k g, (k, g) ∈ groupby key l → k ≠ key x →
            g = filter (fun a => key a = k) (x :: l)) as Hother.
  { intros k g Hin Hne. rewrite filter_cons_False by done. by apply Hgroups. }
  destruct (groupby key l) as [|[k0 g0] gs] eqn:E.
  - split; [repeat constructor; by intros ?%elem_of_nil|].
    intros k g [= -> ->]%list_elem_of_singleton.
    rewrite filter_cons_True by done. f_equal. symmetry.
    destruct l as [|y l]; [done|]. cbn in E.
    destruct (groupby key l) as [|[??]?]; [done | by case_decide].
  - case_decide as Hk.
    + split; [done|]. intros k g [[= -> ->]|Hin]%elem_of_cons.
      * rewrite filter_cons_True by done. f_equal. apply Hgroups. left.
      * apply Hother; [by right|]. intros ->. cbn in Hnd.
        apply NoDup_cons in Hnd as [Hnotin _]. apply Hnotin.
        rewrite <- Hk. apply list_elem_of_fmap. by exists (key x, g).
    + assert (∀ k g, (k, g) ∈ (k0, g0) :: gs → k ≠ key x) as Hfresh.
      { intros k g Hin ->.
        destruct (groupby_keys l (key x) g) as (y & g' & -> & Hy & Hyl);
          [by rewrite E|].
        destruct (groupby_keys l k0 g0) as (z & g'' & -> & Hz & Hzl);
          [rewrite E; left|].
        assert (String.le (key x) (key z)) as Hxz
          by (by eapply (proj1 (Forall_forall _ _) Hall)).
        (* the first item of [l] has key k0, and [y] comes at or after it *)
        destruct l as [|a l']; [by apply elem_of_nil in Hyl|].
        assert (key a = k0) as Ha.
        { cbn in E. destruct (groupby key l') as [|[k1 g1] gs1].
          - by injection E as <- _ _.
          - case_decide; by injection E as <- _ _. }
        apply StronglySorted_inv in Hsorted as [_ Hafter].
        assert (String.le (key a) (key y)) as Hay.
        { apply elem_of_cons in Hyl as [->|Hyl]; [done|].
          by eapply (proj1 (Forall_forall _ _) Hafter). }
        assert (String.le (key x) (key a)) as Hxa
          by (eapply (proj1 (Forall_forall _ _) Hall); left).
        apply Hk. rewrite <- Ha. apply (anti_symm String.le); [done|].
        by rewrite <- Hy. }
      split.
      * rewrite fmap_cons. constructor; [|done]. cbn [fst].
        intros ((k & g) & Heq & Hin)%list_elem_of_fmap. cbn in Heq. subst k.
        by eapply Hfresh.
      * intros k g [[= -> ->]|Hin]%elem_of_cons.
        -- rewrite filter_cons_True by done. f_equal. symmetry.
           apply filter_nothing. intros y Hyl Hy.
           (* an item of [l] with the key of [x] would be in a group of that key *)
           assert (key y ∈ (groupby key l).*1) as Hgk.
           { clear -Hyl. induction l as [|a l IH]; [by apply elem_of_nil in Hyl|].
             cbn [groupby]. apply elem_of_cons in Hyl as [->|Hyl].
             - destruct (groupby key l) as [|[k1 g1] gs1]; [left|].
               case_decide as Hk1; [rewrite Hk1|]; left.
             - specialize (IH Hyl).
               destruct (groupby key l) as [|[k1 g1] gs1]; [by apply elem_of_nil in IH|].
               case_decide; [done | by right]. }
           rewrite E in Hgk.
           apply list_elem_of_fmap in Hgk as ((k' & g') & Heq & Hin').
           cbn in Heq. by eapply (Hfresh k' g' Hin'); rewrite <- Heq.
        -- apply Hother; [done|]. by eapply Hfresh.
Qed.
End sort_and_group.

(** X24. The upload loop gets the pairs of each URL together: after the
    sort and the grouping, no URL heads two groups, every group is not
    empty and holds all the (chunk, embedding) pairs of its URL in the
    order they had before the sort, and every pair is in the group of its
    URL. So [upsert_chunks] is called once per URL, with all its chunks in
    chunk order. *)
Theorem upload_groups_by_url (pairs : list (HChunk * Vec)) :
  NoDup (groupby pair_url (sort_by pair_url pairs)).*1 ∧
  (∀ u group_list,
     (u, group_list) ∈ groupby pair_url (sort_by pair_url pairs) →
     group_list ≠ [] ∧
     group_list = filter (fun ce => pair_url ce = u) pairs) ∧
  (∀ ce, ce ∈ pairs →
     (pair_url ce, filter (fun ce' => pair_url ce' = pair_url ce) pairs)
       ∈ groupby pair_url (sort_by pair_url pairs)).
Proof.
  destruct (groupby_sorted pair_url (sort_by pair_url pairs)) as [Hnd Hgroups];
    [apply sort_by_sorted|].
  split_and!; [done| |].
  - intros u g Hin. split.
    + by destruct (groupby_keys _ _ _ _ Hin) as (x & g' & -> & _).
    + rewrite (Hgroups u g Hin). apply filter_sort_by.
  - intros ce Hce.
    assert (ce ∈ concat (groupby pair_url (sort_by pair_url pairs)).*2) as Hin
      by (by rewrite groupby_concat, sort_by_perm).
    apply elem_of_concat in Hin as (g & Hg & Hgs).
    apply list_elem_of_fmap in Hgs as ((u & g0) & Heq & Hin). cbn in Heq. subst g0.
    pose proof (Hgroups u g Hin) as Hgeq.
    assert (pair_url ce = u) as ->.
    { rewrite Hgeq in Hg. by apply list_elem_of_filter in Hg as [? _]. }
    rewrite <- (filter_sort_by pair_url), <- Hgeq. done.
Qed.

Lemma omap_none {A B} (f : A → option B) (l : list A) :
  (∀ x, x ∈ l → f x = None) → omap f l = [].
Proof.
  induction l as [|x l IH]; intros Hall; [done|].
  cbn. rewrite (Hall x) by left. apply IH. intros y Hy. apply Hall. by right.
Qed.

(** X26. When no extractor returns a document for any crawled address
    (nothing was crawled, or every fetch failed), the run ends as "nothing
    to do" and the table is not even read. *)
Theorem run_pipeline_no_documents `{Hashlib} `{EdgeFunction} `{Collaborators}
    (cfg : Config.config) (pages pdfs : gset string) (w : world) :
  Config.validate cfg = Ok tt →
  (∀ u, u ∈ pages → html_text u = None) →
  (∀ u, u ∈ pdfs → pdf_text u = None) →
  run_pipeline cfg (Ok (pages, pdfs)) w = (Ok NothingToDo, w).
Proof.
  intros Hcfg Hpages Hpdfs. unfold run_pipeline, extract_documents.
  rewrite Hcfg, !omap_none; [done| |].
  - intros u Hu%elem_of_elements. unfold extract_text_from_pdf.
    by rewrite (Hpdfs u Hu).
  - intros u Hu%elem_of_elements. unfold extract_text_from_html.
    by rewrite (Hpages u Hu).
Qed.

Lemma run_pipeline_no_documents_witness :
  @run_pipeline Examples.toy_hashlib Examples.edge_up Examples.site_v1
    Examples.cfg0 (Ok ({["C"]}, {["D.pdf"]})) Examples.run1.2 =
  (Ok NothingToDo, Examples.run1.2).
Proof.
  apply (@run_pipeline_no_documents Examples.toy_hashlib Examples.edge_up
           Examples.site_v1 Examples.cfg0 {["C"]} {["D.pdf"]} Examples.run1.2).
  - reflexivity.
  - intros u ->%elem_of_singleton. reflexivity.
  - intros u _. reflexivity.
Defined.

Lemma extracted_urls_sublist {X} (f : string → option X) (mk : string → X → Document)
    (us : list string) :
  (∀ u x, doc_url (mk u x) = u) →
  doc_url <$> omap (fun u => mk u <$> f u) us `sublist_of` us.
Proof.
  intros Hmk. induction us as [|u us IH]; [done|]. cbn.
  destruct (f u) as [x|]; cbn.
  - rewrite Hmk. by constructor.
  - by constructor.
Qed.

Lemma chunk_document_keys `{Collaborators} d :
  (fun c => (url c, chunk_index c)) <$> chunk_document d =
  (fun i => (doc_url d, i)) <$> seq 0 (length (split_text (doc_content d))).
Proof.
  unfold chunk_document. rewrite fmap_imap.
  rewrite (imap_ext _ (fun i _ => (doc_url d, i))) by done.
  apply imap_seq_0.
Qed.

Lemma chunk_documents_keys_nodup `{Collaborators} (documents : list Document) :
  NoDup (doc_url <$> documents) →
  NoDup ((fun c => (url c, chunk_index c)) <$> chunk_documents documents).
Proof.
  unfold chunk_documents.
  induction documents as [|d ds IH]; intros Hnd; [constructor|].
  apply NoDup_cons in Hnd as [Hd Hds].
  cbn. rewrite fmap_app, chunk_document_keys. apply NoDup_app. split_and!.
  - apply NoDup_fmap_2; [by intros i j [= ->] | apply NoDup_seq].
  - intros [u i] (j & [= -> ->] & _)%list_elem_of_fmap
      (c & Hc & Hin)%list_elem_of_fmap.
    apply list_elem_of_bind in Hin as (d' & Hcd & Hd').
    apply Hd. apply list_elem_of_fmap. exists d'. split; [|done].
    injection Hc as -> _.
    unfold chunk_document in Hcd.
    by apply elem_of_lookup_imap in Hcd as (k & text & -> & _).
  - by apply IH.
Qed.

(** X27. When the page set and the PDF set of the crawl are disjoint (as
    [crawl] returns them), no two chunks of a run have the same url and the
    same chunk_index: the pair the table is keyed by names one chunk. *)
Theorem run_chunk_keys_unique `{Collaborators} (pages pdfs : gset string) :
  pages ## pdfs →
  NoDup ((fun c => (url c, chunk_index c)) <$>
           chunk_documents (extract_documents pages pdfs)).
Proof.
  intros Hdisj. apply chunk_documents_keys_nodup.
  unfold extract_documents, extract_text_from_html, extract_text_from_pdf.
  rewrite fmap_app. apply NoDup_app.
  assert (doc_url <$> omap (fun u => (fun '(t, c) => mkDocument u t c "html")
                                        <$> html_text u) (elements pages)
          `sublist_of` elements pages) as Hs1.
  { apply (extracted_urls_sublist html_text
             (fun u '(t, c) => mkDocument u t c "html")). by intros u [??]. }
  assert (doc_url <$> omap (fun u => (fun '(t, c) => mkDocument u t c "pdf")
                                        <$> pdf_text u) (elements pdfs)
          `sublist_of` elements pdfs) as Hs2.
  { apply (extracted_urls_sublist pdf_text
             (fun u '(t, c) => mkDocument u t c "pdf")). by intros u [??]. }
  split_and!.
  - eapply sublist_NoDup; [apply (NoDup_elements pages) | apply Hs1].
  - intros u Hu1 Hu2.
    apply (Hdisj u); apply elem_of_elements.
    + eapply elem_of_sublist; [exact Hu1 | apply Hs1].
    + eapply elem_of_sublist; [exact Hu2 | apply Hs2].
  - eapply sublist_NoDup; [apply (NoDup_elements pdfs) | apply Hs2].
Qed.

Lemma run_chunk_keys_unique_witness :
  NoDup ((fun c => (url c, chunk_index c)) <$>
           @chunk_documents Examples.site_v1
             (@extract_documents Examples.site_v1 Examples.pages_ab ∅)).
Proof.
  apply (@run_chunk_keys_unique Examples.site_v1 Examples.pages_ab ∅).
  apply disjoint_empty_r.
Defined.

End MainMore.

(* --------------------------------------------------------------------- *)
(** ** More about the addresses of the breadth-first crawl                *)
(* --------------------------------------------------------------------- *)

Module UrlMore.
Import PyStr Config Spider More SpiderFacts.

Lemma append_cons c s t : String c s +:+ t = String c (s +:+ t).
Proof. reflexivity. Qed.

Lemma append_empty_r s : s +:+ "" = s.
Proof. induction s as [|c s IH]; [done|]. by rewrite append_cons, IH. Qed.

Lemma rev_app_rev_app s a b :
  String.rev_app (String.rev_app s a) b = String.rev_app a (s +:+ b).
Proof.
  revert a b. induction s as [|c s IH]; intros a b; [done|].
  cbn [String.rev_app]. by rewrite IH, append_cons.
Qed.

Lemma rev_rev s : String.rev (String.rev s) = s.
Proof.
  unfold String.rev. rewrite rev_app_rev_app. cbn [String.rev_app].
  apply append_empty_r.
Qed.

Lemma rev_app_append s t a :
  String.rev_app (s +:+ t) a = String.rev_app t (String.rev_app s a).
Proof.
  revert a. induction s as [|c s IH]; intros a; [done|].
  rewrite append_cons. cbn [String.rev_app]. apply IH.
Qed.

Lemma all_chars_rev_app ok s a :
  all_chars ok (String.rev_app s a) = all_chars ok s && all_chars ok a.
Proof.
  revert a. induction s as [|c s IH]; intros a; [done|].
  cbn. rewrite IH. cbn. destruct (ok c), (all_chars ok s), (all_chars ok a); done.
Qed.

Lemma all_chars_append ok s t :
  all_chars ok (s +:+ t) = all_chars ok s && all_chars ok t.
Proof.
  induction s as [|c s IH]; [done|]. rewrite append_cons. cbn [all_chars].
  by rewrite IH, andb_assoc.
Qed.

Lemma all_chars_rev ok s : all_chars ok (String.rev s) = all_chars ok s.
Proof. unfold String.rev. rewrite all_chars_rev_app. cbn. apply andb_true_r. Qed.

Lemma all_chars_lstrip ok f s :
  all_chars ok s = true → all_chars ok (lstrip_by f s) = true.
Proof.
  induction s as [|c s IH]; [done|]. cbn.
  intros [Hc Hs]%andb_true_iff. destruct (f c); [by apply IH|].
  cbn. by rewrite Hc, Hs.
Qed.

Lemma all_chars_rstrip ok f s :
  all_chars ok s = true → all_chars ok (rstrip_by f s) = true.
Proof.
  intros Hs. unfold rstrip_by. rewrite all_chars_rev.
  apply all_chars_lstrip. by rewrite all_chars_rev.
Qed.

Lemma before_hash_no_hash s : all_chars not_hash (before_hash s) = true.
Proof.
  induction s as [|c s IH]; [done|]. cbn.
  case_bool_decide as Hc; [done|]. cbn. unfold not_hash at 1.
  by rewrite bool_decide_false.
Qed.

Lemma before_hash_id s : all_chars not_hash s = true → before_hash s = s.
Proof.
  induction s as [|c s IH]; [done|]. cbn. unfold not_hash at 1.
  intros [Hc Hs]%andb_true_iff. case_bool_decide; [done|]. by rewrite IH.
Qed.

Lemma before_hash_cut s frag :
  all_chars not_hash s = true → before_hash (s +:+ "#" +:+ frag) = s.
Proof.
  induction s as [|c s IH]; [done|]. rewrite append_cons.
  cbn [all_chars before_hash]. unfold not_hash at 1.
  intros [Hc Hs]%andb_true_iff. case_bool_decide; [done|]. by rewrite IH.
Qed.

Lemma lstrip_idemp f s : lstrip_by f (lstrip_by f s) = lstrip_by f s.
Proof.
  induction s as [|c s IH]; [done|]. cbn.
  destruct (f c) eqn:Hc; [done|]. cbn. by rewrite Hc.
Qed.

Lemma rstrip_idemp f s : rstrip_by f (rstrip_by f s) = rstrip_by f s.
Proof. unfold rstrip_by. by rewrite rev_rev, lstrip_idemp. Qed.

Lemma lstrip_slash_head s :
  String.prefix "/" (lstrip_by (fun c => bool_decide (c = "/"%char)) s) = false.
Proof.
  induction s as [|c s IH]; [done|]. cbn [lstrip_by].
  case_bool_decide as Hc; [done|]. cbn [String.prefix].
  destruct (ascii_dec "/" c) as [Heq|]; [by destruct Hc | done].
Qed.

Lemma rstrip_slash_tail s : endswith (rstrip_slash s) "/" = false.
Proof.
  unfold endswith, rstrip_slash, rstrip_by. rewrite rev_rev.
  apply lstrip_slash_head.
Qed.

Lemma normalise_idemp u : normalise (normalise u) = normalise u.
Proof.
  unfold normalise.
  rewrite (before_hash_id (rstrip_slash (before_hash u))).
  - apply rstrip_idemp.
  - apply all_chars_rstrip, before_hash_no_hash.
Qed.

(** X18. The crawl takes an address, the address with "/" added and the
    address with any fragment added for the same address (so it visits the
    page once): for an address without "#", all three have the same normal
    form. *)
Theorem normalise_same_page (u frag : string) :
  all_chars not_hash u = true →
  normalise (u +:+ "/") = normalise u ∧
  normalise (u +:+ "#" +:+ frag) = normalise u ∧
  normalise ((u +:+ "/") +:+ "#" +:+ frag) = normalise u.
Proof.
  intros Hu.
  assert (all_chars not_hash (u +:+ "/") = true) as Hu'.
  { by rewrite all_chars_append, Hu. }
  assert (rstrip_slash (u +:+ "/") = rstrip_slash u) as Hslash.
  { unfold rstrip_slash, rstrip_by, String.rev. rewrite rev_app_append. done. }
  unfold normalise. split_and!.
  - by rewrite !before_hash_id, Hslash by done.
  - by rewrite before_hash_cut, before_hash_id by done.
  - by rewrite before_hash_cut, before_hash_id, Hslash by done.
Qed.

Lemma normalise_same_page_witness :
  normalise ("https://example.org/a" +:+ "/") = normalise "https://example.org/a" ∧
  normalise ("https://example.org/a" +:+ "#" +:+ "top") =
    normalise "https://example.org/a" ∧
  normalise (("https://example.org/a" +:+ "/") +:+ "#" +:+ "top") =
    normalise "https://example.org/a".
Proof.
  apply (normalise_same_page "https://example.org/a" "top"). reflexivity.
Defined.

Lemma bfs_step_normal `{Urllib} `{Web} cfg base_domain st st' :
  bfs_step cfg base_domain st = Some st' →
  admitted_normal st → admitted_normal st'.
Proof.
  intros Hstep Hst. unfold bfs_step in Hstep.
  destruct (queue st) as [|url0 queue']; [done|].
  destruct (_ && _); [done|].
  destruct (startswith _ "http") eqn:Ehttp; cbn [negb] in Hstep;
    [|by injection Hstep as <-].
  case_bool_decide; [by injection Hstep as <-|].
  destruct (negb (bool_decide _)); [by injection Hstep as <-|].
  assert (startswith (rstrip_slash (before_hash url0)) "http" = true ∧
          ∃ q, rstrip_slash (before_hash url0) = normalise q) as Hnew
    by (split; [done | by exists url0]).
  destruct (endswith (lower _) ".pdf").
  - destruct (size (pdf_urls st) <? MAX_PDFS cfg); injection Hstep as <-; [|done].
    intros v. cbn. rewrite (assoc_L (∪)), elem_of_union, elem_of_singleton.
    intros [Hv| ->]; [by apply Hst | done].
  - destruct (MAX_PAGES cfg <=? size (page_urls st)); [by injection Hstep as <-|].
    destruct (session_get _) as [|content_type status_code hrefs];
      [by injection Hstep as <-|].
    destruct (negb (contains _ _)); [by injection Hstep as <-|].
    destruct (_ && _)%Z; injection Hstep as <-; [done|].
    intros v. cbn. rewrite !elem_of_union, elem_of_singleton.
    intros [[Hv| ->]|Hv]; [apply Hst; set_solver | done | apply Hst; set_solver].
Qed.

Lemma bfs_loop_normal `{Urllib} `{Web} cfg base_domain fuel st st' :
  bfs_loop cfg base_domain fuel st = Some st' →
  admitted_normal st → admitted_normal st'.
Proof.
  revert st. induction fuel as [|fuel IH]; intros st; [done|].
  cbn [bfs_loop]. destruct (bfs_step cfg base_domain st) as [st1|] eqn:Estep.
  - intros Hloop Hst. apply (IH st1 Hloop). by eapply bfs_step_normal.
  - by intros [= <-].
Qed.

(** X19. Every address the breadth-first crawl admits, as a page or as a
    PDF, starts with "http", contains no "#", does not end with "/" and is
    its own normal form. *)
Theorem bfs_crawl_admits_normal `{Urllib} `{Web} (cfg : config)
    (seed_url : option string) (fuel : nat)
    (pages pdfs : gset string) (log : list string) :
  _bfs_crawl cfg seed_url fuel = Some (Ok (pages, pdfs), log) →
  ∀ u, u ∈ pages ∪ pdfs →
       startswith u "http" = true ∧
       all_chars not_hash u = true ∧
       endswith u "/" = false ∧
       normalise u = u.
Proof.
  unfold _bfs_crawl. intros Hcrawl.
  destruct (bfs_loop _ _ _ _) as [st'|] eqn:Eloop; [|done].
  injection Hcrawl as <- <- _. intros u Hu.
  assert (admitted_normal (bfs_init (seed_of cfg seed_url))) as Hinit.
  { intros v Hv. cbn in Hv. set_solver. }
  destruct (bfs_loop_normal _ _ _ _ _ Eloop Hinit u Hu) as (Hhttp & q & ->).
  split_and!; [done | | apply rstrip_slash_tail | apply normalise_idemp].
  unfold normalise. apply all_chars_rstrip, before_hash_no_hash.
Qed.

Lemma bfs_crawl_admits_normal_witness :
  startswith "https://www.example.org/x" "http" = true ∧
  all_chars not_hash "https://www.example.org/x" = true ∧
  endswith "https://www.example.org/x" "/" = false ∧
  normalise "https://www.example.org/x" = "https://www.example.org/x".
Proof.
  apply (@bfs_crawl_admits_normal Examples.toy_urllib Examples.small_web
           Examples.cfg_example None 20
           Examples.small_result.1 Examples.small_result.2 Examples.small_log).
  - vm_compute. reflexivity.
  - apply (bool_decide_unpack _). vm_compute. exact I.
Defined.

End UrlMore.
